(** * Deck share-code decoding and card-slot classification

    A shallow embedding of [src/__init__.py] of the
    [nonebot_plugin_gitcg_deck_image] plugin: the share-code decoder
    [decode_share_ids], the cached catalog map [get_card_id_map] and the
    slot classification at the head of [generate_deck_image].

    Python integers are [Z], byte lists are lists of [Z], a [str] is a
    [string] of 8-bit characters (a character above 127 stands for a
    non-ASCII code point), a [dict[int, int]] is a [gmap Z Z], and raised
    exceptions are the [Raise] results of a small error monad. *)

From Stdlib Require Import ZArith Lia ZifyNat Ascii String.
From stdpp Require Import gmap strings list pretty sorting.

Local Open Scope Z_scope.

(** ** Python primitives *)

Module Py.

(** The exceptions the modelled code can raise. *)
Inductive exn : Type :=
| ValueError (msg : string)
| IndexError (msg : string)
| ClientError (msg : string)
| ClientResponseError (status : Z)
| JSONDecodeError (msg : string).

(** A computation either returns a value or raises. *)
Inductive result (A : Type) : Type :=
| Ok (a : A)
| Raise (e : exn).
Arguments Ok {A} a.
Arguments Raise {A} e.

#[export] Instance result_ret : MRet result := fun _ a => Ok a.
#[export] Instance result_bind : MBind result := fun _ _ f m =>
  match m with
  | Ok a => f a
  | Raise e => Raise e
  end.

(** [l[i]] for a non-negative index. *)
Definition getitem {A} (l : list A) (i : nat) : result A :=
  match l !! i with
  | Some x => Ok x
  | None => Raise (IndexError "list index out of range")
  end.

(** [l.pop()]: the last element and the list left behind. *)
Definition pop {A} (l : list A) : result (A * list A) :=
  match last l with
  | Some x => Ok (x, removelast l)
  | None => Raise (IndexError "pop from empty list")
  end.

(** [range(n)]. *)
Definition range (n : nat) : list nat := seq 0 n.

(** [for i in ixs: s = body(i, s)], the loop state threaded through. *)
Fixpoint for_each {S} (ixs : list nat) (body : nat → S → result S) (s : S)
  : result S :=
  match ixs with
  | [] => Ok s
  | i :: ixs' => s' ← body i s; for_each ixs' body s'
  end.

(** What one iteration of a loop with [break] asks for. *)
Inductive step (S : Type) : Type :=
| Next (s : S)
| Break (s : S).
Arguments Next {S} s.
Arguments Break {S} s.

Fixpoint for_each_break {S} (ixs : list nat) (body : nat → S → result (step S))
  (s : S) : result S :=
  match ixs with
  | [] => Ok s
  | i :: ixs' =>
      r ← body i s;
      match r with
      | Next s' => for_each_break ixs' body s'
      | Break s' => Ok s'
      end
  end.

(** [s.replace(old, new)] for one-character [old] and [new]. *)
Fixpoint replace (old new : ascii) (s : string) : string :=
  match s with
  | EmptyString => EmptyString
  | String c s' =>
      String (if Ascii.eqb c old then new else c) (replace old new s')
  end.

(** [c * n] for a one-character string [c]. *)
Fixpoint str_mul (c : ascii) (n : nat) : string :=
  match n with
  | O => EmptyString
  | S n' => String c (str_mul c n')
  end.

(** [str(n)] for an integer: decimal digits, a leading [-] when negative. *)
Definition str (n : Z) : string := pretty n.

End Py.
Import Py.

(** ** The library decoder [base64.b64decode]

    [base64.b64decode(s)] with its default [validate=False] encodes a [str]
    argument as ASCII and hands it to [binascii.a2b_base64] in its
    non-strict mode: characters outside the alphabet are skipped, a [=]
    counts as padding only once at least two characters of the current
    quad were read, and a complete pad sequence ends the input. *)

Module Base64.

Definition BASE64_PAD : ascii := "="%char.

Definition code (c : ascii) : Z := Z.of_N (N_of_ascii c).

(** The value of a character in the alphabet, 255 outside of it. *)
Definition table_a2b_base64 (c : ascii) : Z :=
  let n := code c in
  if (65 <=? n) && (n <=? 90) then n - 65
  else if (97 <=? n) && (n <=? 122) then n - 71
  else if (48 <=? n) && (n <=? 57) then n + 4
  else if n =? 43 then 62
  else if n =? 47 then 63
  else 255.

(** How the scan over the input ends: at a complete pad sequence, or at
    the end of the input with [quad_pos] characters of a quad pending. *)
Inductive scan : Type :=
| Padded (bin_data : list Z)
| Exhausted (quad_pos : Z) (bin_data : list Z).

Definition u8 (n : Z) : Z := Z.land n 255.

Fixpoint a2b_scan (ascii_data : list ascii)
  (quad_pos leftchar pads : Z) (bin_data : list Z) : scan :=
  match ascii_data with
  | [] => Exhausted quad_pos bin_data
  | this_ch :: rest =>
      if Ascii.eqb this_ch BASE64_PAD then
        if (2 <=? quad_pos) && (4 <=? quad_pos + (pads + 1)) then
          Padded bin_data
        else
          a2b_scan rest quad_pos leftchar
            (if 2 <=? quad_pos then pads + 1 else pads) bin_data
      else
        let this_ch := table_a2b_base64 this_ch in
        if 64 <=? this_ch then
          a2b_scan rest quad_pos leftchar pads bin_data
        else if quad_pos =? 0 then
          a2b_scan rest 1 this_ch 0 bin_data
        else if quad_pos =? 1 then
          a2b_scan rest 2 (Z.land this_ch 15) 0
            (bin_data ++ [u8 (Z.lor (Z.shiftl leftchar 2) (Z.shiftr this_ch 4))])
        else if quad_pos =? 2 then
          a2b_scan rest 3 (Z.land this_ch 3) 0
            (bin_data ++ [u8 (Z.lor (Z.shiftl leftchar 4) (Z.shiftr this_ch 2))])
        else
          a2b_scan rest 0 0 0
            (bin_data ++ [u8 (Z.lor (Z.shiftl leftchar 6) this_ch)])
  end.

(** [binascii.a2b_base64(data)]: the bytes, or the message of the
    [binascii.Error] raised. *)
Definition a2b_base64 (data : list ascii) : string + list Z :=
  match a2b_scan data 0 0 0 [] with
  | Padded bin_data => inr bin_data
  | Exhausted quad_pos bin_data =>
      if quad_pos =? 0 then inr bin_data
      else if quad_pos =? 1 then
        inl ("Invalid base64-encoded string: number of data characters ("
             +:+ str (Z.of_nat (length bin_data) / 3 * 4 + 1)
             +:+ ") cannot be 1 more than a multiple of 4")
      else inl "Incorrect padding"
  end.

Definition is_ascii (c : ascii) : bool := code c <? 128.

(** [base64.b64decode(s)] for a [str]: the decoded bytes, or the message
    of the exception raised. *)
Definition b64decode (s : string) : string + list Z :=
  let data := list_ascii_of_string s in
  if forallb is_ascii data then a2b_base64 data
  else inl "string argument should contain only ASCII characters".

End Base64.
Import Base64.

(** ** [decode_share_ids]

    The [print] calls that precede the two [raise] statements write the
    same message to standard output and are left out. *)

(** Lines 40-43: URL-safe characters translated, then [=] padding. *)
Definition normalize (b64_string : string) : string :=
  let b64_string := replace "_" "/" (replace "-" "+" b64_string) in
  let missing_padding := (String.length b64_string mod 4)%nat in
  if (missing_padding =? 0)%nat then b64_string
  else b64_string +:+ str_mul "=" (4 - missing_padding).

(** Lines 57-64: the reordered buffer built from the working bytes [arr]
    and the key [last]. *)
Definition reorder (arr : list Z) (last : Z) : result (list Z) :=
  reordered ← for_each (range 25) (fun i reordered =>
    x ← getitem arr (2 * i);
    Ok (reordered ++ [Z.land (x - last) 255])) [];
  reordered ← for_each (range 25) (fun i reordered =>
    x ← getitem arr (2 * i + 1);
    Ok (reordered ++ [Z.land (x - last) 255])) reordered;
  Ok (reordered ++ [0]).

(** The two 12-bit numbers of a 3-byte chunk (lines 75-76). *)
Definition n1 (b1 b2 : Z) : Z := Z.lor (Z.shiftl b1 4) (Z.shiftr b2 4).
Definition n2 (b2 b3 : Z) : Z := Z.lor (Z.shiftl (Z.land b2 15) 8) b3.

(** Lines 67-77: the chunk loop, with its bounds guard. *)
Definition extract (reordered : list Z) : result (list Z) :=
  for_each_break (range 17) (fun i result =>
    let chunk_start := (i * 3)%nat in
    if (length reordered <=? chunk_start + 2)%nat then Ok (Break result)
    else
      b1 ← getitem reordered chunk_start;
      b2 ← getitem reordered (chunk_start + 1);
      b3 ← getitem reordered (chunk_start + 2);
      Ok (Next (result ++ [n1 b1 b2; n2 b2 b3]))) [].

(** Lines 56-80: everything after the length check. *)
Definition unpack (arr : list Z) : result (list Z) :=
  '(last, arr) ← pop arr;
  reordered ← reorder arr last;
  result ← extract reordered;
  '(_, result) ← pop result;
  Ok result.

Definition decode_failed : string := "Base64 解码失败: ".
Definition wrong_length : string := "解码后的字节长度应为 51，实际为 ".

Definition decode_share_ids (b64_string : string) : result (list Z) :=
  match b64decode (normalize b64_string) with
  | inl e => Raise (ValueError (decode_failed +:+ e))
  | inr arr =>
      if bool_decide (length arr ≠ 51%nat) then
        Raise (ValueError (wrong_length +:+ str (Z.of_nat (length arr))))
      else unpack arr
  end.

(** ** [get_card_id_map]

    The catalog endpoints are the environment: a [network] gives, for a
    URL, what [session.get(url)] comes back with at the time of the call.
    The process state holds the module-level cache and, as a ghost log,
    the URLs requested so far. *)

(** An entry of a catalog: [None] for a missing key; a [shareId] that is
    present may be [null]. *)
Record item : Type := Item {
  item_shareId : option (option Z);
  item_id : option Z
}.

(** The parsed body of a response: the truth value of [data.get("success")]
    and the list [data.get("data", [])]. *)
Record body : Type := Body {
  body_success : bool;
  body_data : list item
}.

(** A response: its HTTP status, and what [await resp.json()] gives. *)
Record response : Type := Response {
  status : Z;
  json : result body
}.

Definition network : Type := string → result response.

Record process : Type := Process {
  SHARE_ID_TO_ID_MAP : option (gmap Z Z);
  requested : list string
}.

(** The state of a freshly started process: [SHARE_ID_TO_ID_MAP = None]. *)
Definition started : process := Process None [].

(** [resp.raise_for_status()]: raises for a status of 400 and above. *)
Definition raise_for_status (resp : response) : result unit :=
  if 400 <=? status resp then Raise (ClientResponseError (status resp))
  else Ok tt.

(** [asyncio.gather] awaited on the tasks: all the results, unless a task
    raised. *)
Fixpoint gather {A} (tasks : list (result A)) : result (list A) :=
  match tasks with
  | [] => Ok []
  | t :: tasks' => r ← t; rs ← gather tasks'; Ok (r :: rs)
  end.

Definition characters_url : string :=
  "https://static-data.7shengzhaohuan.online/api/v4/data/beta/CHS/characters".
Definition action_cards_url : string :=
  "https://static-data.7shengzhaohuan.online/api/v4/data/beta/CHS/action_cards".

Definition urls : list string := [characters_url; action_cards_url].

(** Lines 110-113: one entry of a catalog. *)
Definition add_item (id_map : gmap Z Z) (it : item) : gmap Z Z :=
  match item_shareId it, item_id it with
  | Some shareId, Some id' =>
      match shareId with
      | Some sid => if sid =? 0 then id_map else <[sid := id']> id_map
      | None => id_map
      end
  | _, _ => id_map
  end.

(** Lines 105-115: the loop over the responses. *)
Fixpoint collect (responses : list response) (id_map : gmap Z Z)
  : result (gmap Z Z) :=
  match responses with
  | [] => Ok id_map
  | resp :: rest =>
      if status resp =? 200 then
        data ← json resp;
        if body_success data then
          collect rest (foldl add_item id_map (body_data data))
        else collect rest id_map
      else
        _ ← raise_for_status resp;
        collect rest id_map
  end.

(** The truth value of [SHARE_ID_TO_ID_MAP]: [None] and the empty dict
    are false. *)
Definition cached (p : process) : option (gmap Z Z) :=
  match SHARE_ID_TO_ID_MAP p with
  | Some m => if bool_decide (m = ∅) then None else Some m
  | None => None
  end.

Definition get_card_id_map (net : network) (p : process)
  : result (gmap Z Z) * process :=
  match cached p with
  | Some m => (Ok m, p)
  | None =>
      let p := Process (SHARE_ID_TO_ID_MAP p) (requested p ++ urls) in
      match responses ← gather (map net urls); collect responses ∅ with
      | Ok id_map => (Ok id_map, Process (Some id_map) (requested p))
      | Raise e => (Raise e, p)
      end
  end.

(** Calls made one after the other, each returning or raising before the
    next one starts, each against the network as it is at the time of
    that call. *)
Fixpoint calls (nets : list network) (p : process)
  : list (result (gmap Z Z)) * process :=
  match nets with
  | [] => ([], p)
  | net :: nets' =>
      let '(r, p) := get_card_id_map net p in
      let '(rs, p) := calls nets' p in
      (r :: rs, p)
  end.

(** ** The slot classification of [generate_deck_image] (lines 177-186) *)

(** The truth value of an integer. *)
Definition truthy (n : Z) : bool := negb (n =? 0).

(** [sorted(l)] on integers. *)
Definition sorted (l : list Z) : list Z := merge_sort Z.le l.

(** Line 178: [id_map.get(sid, 0)] for every share-ID. *)
Definition resolved (id_map : gmap Z Z) (share_ids : list Z) : list Z :=
  map (fun sid => default 0 (id_map !! sid)) share_ids.

(** The list [card_ids] handed to the image fetches; [None] is
    [placeholder_id]. *)
Definition card_ids (id_map : gmap Z Z) (share_ids : list Z)
  : list (option Z) :=
  let placeholder_id : option Z := None in
  let card_ids := resolved id_map share_ids in
  let main_cards :=
    map (fun cid =>
           if truthy cid && (4 <=? String.length (str cid))%nat then Some cid
           else placeholder_id)
        (take 3 card_ids) in
  let small_cards_valid :=
    List.filter (fun cid => truthy cid && (6 <=? String.length (str cid))%nat)
      (drop 3 card_ids) in
  let small_cards_invalid :=
    map (fun _ => placeholder_id)
      (List.filter
         (fun cid => negb (truthy cid) || (String.length (str cid) <? 6)%nat)
         (drop 3 card_ids)) in
  main_cards ++ map Some (sorted small_cards_valid) ++ small_cards_invalid.

(** ** [fetch_image]

    The image cache is a directory on disk and the images come from a
    remote endpoint: a [store] holds the files by path and, as a ghost
    log, the URLs requested; an [image_network] gives what
    [session.get(url)] comes back with; a [disk] says what becomes of a
    write. [Image.open] is a parameter: it gives an image, or raises
    when the bytes are not one.

    The function suspends at [session.get] and at [response.read], and
    its caller runs the 33 fetches of a deck together, so other fetches
    can run between the test of line 134 and the write of lines 142-143.
    It is therefore given in two parts: [fetch_image_begin], up to the
    request, on the store at the time of the call, and
    [fetch_image_resume], from the response on, on the store at the time
    of the write. [fetch_image] is a fetch that runs with no other fetch
    in between. *)

(** [c.isspace()] for a character below 256. *)
Definition is_space (c : ascii) : bool :=
  let n := code c in
  ((9 <=? n) && (n <=? 13)) || ((28 <=? n) && (n <=? 32))
  || (n =? 133) || (n =? 160).

Fixpoint lstrip (s : string) : string :=
  match s with
  | EmptyString => EmptyString
  | String c s' => if is_space c then lstrip s' else s
  end.

Fixpoint rstrip (s : string) : string :=
  match s with
  | EmptyString => EmptyString
  | String c s' =>
      match rstrip s' with
      | EmptyString => if is_space c then EmptyString else String c EmptyString
      | r => String c r
      end
  end.

(** [s.strip()]. *)
Definition strip (s : string) : string := rstrip (lstrip s).

Definition IMAGE_CACHE_DIR : string := "image_cache".

(** [os.path.join(IMAGE_CACHE_DIR, f"{card_id}.png")], with the POSIX
    separator. *)
Definition cache_path (card_id : Z) : string :=
  IMAGE_CACHE_DIR +:+ "/" +:+ str card_id +:+ ".png".

Definition image_url (card_id : Z) : string :=
  "https://static-data.7shengzhaohuan.online/api/v4/image/"
  +:+ str card_id +:+ "?thumbnail=true".

(** A response of the image endpoint: its status, and what
    [await response.read()] gives. *)
Record image_response : Type := ImageResponse {
  image_status : Z;
  image_read : result (list Z)
}.

Definition image_network : Type := string → result image_response.

Record store : Type := Store {
  files : gmap string (list Z);
  downloads : list string
}.

(** Line 128: [not card_id or card_id == 0 or
    str(card_id).strip() in ("", "0")]. *)
Definition blank (card_id : option Z) : bool :=
  match card_id with
  | None => true
  | Some n =>
      negb (truthy n) || (n =? 0)
      || (let t := strip (str n) in String.eqb t "" || String.eqb t "0")
  end.

(** What [open(cache_path, "wb")] and [f.write(image_data)] come to: the
    file holds the data, or an exception is raised, leaving the file as
    it was (nothing for [left_behind]) or holding what was written before
    the failure. *)
Inductive write_outcome : Type :=
| Written
| WriteFailed (left_behind : option (list Z)).

Definition disk : Type := string → list Z → write_outcome.

(** Where a fetch stands when it first suspends or returns. *)
Inductive fetch_start (Image : Type) : Type :=
| Finished (r : result Image)
| Pending (n : Z).
Arguments Finished {Image} r.
Arguments Pending {Image} n.

Section fetch_image.

Context {Image : Type}.
Variable Image_open : list Z → result Image.

(** Lines 128-139: up to the request. *)
Definition fetch_image_begin (card_id : option Z) (fallback : Image)
  (st : store) : fetch_start Image * store :=
  if blank card_id then (Finished (Ok fallback), st)
  else
    match card_id with
    | None => (Finished (Ok fallback), st)
    | Some n =>
        match files st !! cache_path n with
        | Some content => (Finished (Image_open content), st)
        | None =>
            (Pending n, Store (files st) (downloads st ++ [image_url n]))
        end
    end.

(** Lines 139-151: from the response on; every exception is caught and
    gives the fallback. *)
Definition fetch_image_resume (net : image_network) (dsk : disk) (n : Z)
  (fallback : Image) (st : store) : result Image * store :=
  match net (image_url n) with
  | Raise _ => (Ok fallback, st)
  | Ok response =>
      if image_status response =? 200 then
        match image_read response with
        | Raise _ => (Ok fallback, st)
        | Ok image_data =>
            match dsk (cache_path n) image_data with
            | Written =>
                let st :=
                  Store (<[cache_path n := image_data]> (files st))
                        (downloads st) in
                match Image_open image_data with
                | Ok img => (Ok img, st)
                | Raise _ => (Ok fallback, st)
                end
            | WriteFailed None => (Ok fallback, st)
            | WriteFailed (Some partial) =>
                (Ok fallback,
                 Store (<[cache_path n := partial]> (files st)) (downloads st))
            end
        end
      else (Ok fallback, st)
  end.

Definition fetch_image (net : image_network) (dsk : disk)
  (card_id : option Z) (fallback : Image) (st : store)
  : result Image * store :=
  match fetch_image_begin card_id fallback st with
  | (Finished r, st) => (r, st)
  | (Pending n, st) => fetch_image_resume net dsk n fallback st
  end.

End fetch_image.

(** ** The layout of [generate_deck_image] (lines 194-229)

    Where each of the 33 images is composited on the canvas: the
    coordinates computed in the two drawing loops, for a canvas of width
    [canvas_width]. An image is resized to the size of its tile first. *)

Definition W_LARGE : Z := 142.
Definition H_LARGE : Z := 232.
Definition W_SMALL : Z := 89.
Definition H_SMALL : Z := 144.
Definition PADDING : Z := 16.

(** The rectangle an image covers: its top-left corner and its size. *)
Record rect : Type := Rect {
  rect_x : Z;
  rect_y : Z;
  rect_w : Z;
  rect_h : Z
}.

(** Lines 201-212: the first row, for [i] in [range(3)]. *)
Definition large_tile (canvas_width i : Z) : rect :=
  let start_x_large := (canvas_width - (3 * W_LARGE + 2 * PADDING)) / 2 in
  let x := start_x_large + i * (W_LARGE + PADDING) in
  let y := 160 in
  Rect x y W_LARGE H_LARGE.

(** Lines 216-229: the five rows of six, for [i] in [range(3, 33)]. *)
Definition small_tile (canvas_width i : Z) : rect :=
  let start_x_small := (canvas_width - (6 * W_SMALL + 5 * PADDING)) / 2 in
  let start_y_small := 170 + H_LARGE + 70 in
  let row := (i - 3) / 6 in
  let col := (i - 3) `mod` 6 in
  let x := start_x_small + col * (W_SMALL + PADDING) in
  let y := start_y_small + row * (H_SMALL + PADDING) in
  Rect x y W_SMALL H_SMALL.

(** The tile of the image at position [i] of [card_ids]. *)
Definition tile (canvas_width i : Z) : rect :=
  if i <? 3 then large_tile canvas_width i else small_tile canvas_width i.

(** Two rectangles share no pixel. *)
Definition disjoint_rects (a b : rect) : Prop :=
  rect_x a + rect_w a ≤ rect_x b ∨ rect_x b + rect_w b ≤ rect_x a ∨
  rect_y a + rect_h a ≤ rect_y b ∨ rect_y b + rect_h b ≤ rect_y a.

(** ** The library matcher [re.search] and the token detection of
    [handle_base64_event] (lines 264-273)

    A pattern is a sequence of character classes, each repeated greedily
    between [lo] and [hi] times; [re.search] returns the leftmost match,
    and within it each repetition takes as many characters as the rest of
    the pattern allows. *)

Module Re.

Record item : Type := Item {
  cls : ascii → bool;
  lo : nat;
  hi : nat
}.

(** The number of leading characters of [s] in the class. *)
Fixpoint leading (f : ascii → bool) (s : list ascii) : nat :=
  match s with
  | c :: s' => if f c then S (leading f s') else 0%nat
  | [] => 0%nat
  end.

(** Try [c] repetitions, then fewer, down to [lo]; [rest c] matches the
    rest of the pattern after [c] characters. *)
Fixpoint try_counts (lo : nat) (rest : nat → option nat) (c : nat)
  : option nat :=
  match (if (lo <=? c)%nat then rest c else None) with
  | Some n => Some (c + n)%nat
  | None =>
      match c with
      | O => None
      | S c' => try_counts lo rest c'
      end
  end.

(** The length of the match of the pattern at the head of [s]. *)
Fixpoint match_here (pattern : list item) (s : list ascii) : option nat :=
  match pattern with
  | [] => Some 0%nat
  | it :: pattern' =>
      try_counts (lo it) (fun c => match_here pattern' (drop c s))
        (Nat.min (hi it) (leading (cls it) s))
  end.

(** [re.search(pattern, s).group(0)], or [None]. *)
Fixpoint search (pattern : list item) (s : list ascii) : option (list ascii) :=
  match match_here pattern s with
  | Some n => Some (take n s)
  | None =>
      match s with
      | [] => None
      | _ :: s' => search pattern s'
      end
  end.

End Re.

(** The class [[A-Za-z0-9+/]]. *)
Definition standard_char (c : ascii) : bool :=
  let n := code c in
  ((65 <=? n) && (n <=? 90)) || ((97 <=? n) && (n <=? 122))
  || ((48 <=? n) && (n <=? 57)) || (n =? 43) || (n =? 47).

(** The pattern [[A-Za-z0-9+/]{68,70}={0,2}]. *)
Definition deck_code_pattern : list Re.item :=
  [ Re.Item standard_char 68 70;
    Re.Item (fun c => Ascii.eqb c "=") 0 2 ].

(** Lines 264-273: the code [handle_base64_event] takes out of the text
    of a message, [None] when the handler returns without one. *)
Definition detect_code (txt : string) : option string :=
  match Re.search deck_code_pattern (list_ascii_of_string txt) with
  | None => None
  | Some group => Some (strip (string_of_list_ascii group))
  end.

(** ** The frame of a tile (lines 206-209 and 223-226)

    A placeholder gets no frame; an identifier gets the esoteric frame
    when its decimal form starts with 3300, the normal frame otherwise. *)

Inductive frame : Type :=
| frame_normal
| frame_esoteric.

(** [s.startswith(prefix)]. *)
Definition startswith (s prefix : string) : bool := String.prefix prefix s.

Definition frame_for (cid : option Z) : option frame :=
  match cid with
  | None => None
  | Some n =>
      Some (if startswith (str n) "3300" then frame_esoteric else frame_normal)
  end.

(** ** Closed forms used in the statements *)

(** The two values a chunk of the reordered buffer yields. *)
Definition chunk_values (reordered : list Z) (i : nat) : list Z :=
  let b1 := nth (i * 3) reordered 0 in
  let b2 := nth (i * 3 + 1) reordered 0 in
  let b3 := nth (i * 3 + 2) reordered 0 in
  [n1 b1 b2; n2 b2 b3].

(** The reordered buffer in closed form. *)
Definition reordered_of (working : list Z) (key : Z) : list Z :=
  map (fun i => Z.land (nth (2 * i) working 0 - key) 255) (range 25)
  ++ map (fun i => Z.land (nth (2 * i + 1) working 0 - key) 255) (range 25)
  ++ [0].

(** The characters of the standard and URL-safe Base64 alphabets:
    letters, digits, [+], [/], [-] and [_]. *)
Definition in_alphabet (c : ascii) : bool :=
  let n := code c in
  ((65 <=? n) && (n <=? 90)) || ((97 <=? n) && (n <=? 122))
  || ((48 <=? n) && (n <=? 57))
  || (n =? 43) || (n =? 47) || (n =? 45) || (n =? 95).

(** What the two [replace] calls do to one character. *)
Definition translate_char (c : ascii) : ascii :=
  if Ascii.eqb c "-" then "+"%char
  else if Ascii.eqb c "_" then "/"%char
  else c.

(** The message [a2b_base64] raises with when one character is left over. *)
Definition one_extra_character (n : Z) : string :=
  "Invalid base64-encoded string: number of data characters ("
  +:+ str n +:+ ") cannot be 1 more than a multiple of 4".

(** A character [a2b_scan] consumes as one character of a quad. *)
Definition data_char (c : ascii) : Prop :=
  Ascii.eqb c BASE64_PAD = false ∧ (64 <=? table_a2b_base64 c) = false.

(** A response that makes [collect] raise: a status of 400 or above, or a
    status of 200 with a body that fails to parse. *)
Definition failing (resp : response) : Prop :=
  400 ≤ status resp ∨ (status resp = 200 ∧ ∃ e, json resp = Raise e).

(** What a parsed body adds to the map: nothing unless it indicates
    success. *)
Definition contribution (data : body) (id_map : gmap Z Z) : gmap Z Z :=
  if body_success data then foldl add_item id_map (body_data data)
  else id_map.

(** Networks used in the examples: both catalogs answer 200, and
    [answers data1 data2] gives their parsed bodies. *)
Definition answers (data1 data2 : body) : network := fun url =>
  if String.eqb url characters_url then Ok (Response 200 (Ok data1))
  else Ok (Response 200 (Ok data2)).

Definition unreachable : network := fun url =>
  Raise (ClientError "Cannot connect to host").

(** An identifier is kept in a slot asking for [n] characters when it is
    true and its decimal form has at least [n] characters. *)
Definition kept (n : nat) (cid : Z) : Prop :=
  cid ≠ 0 ∧ (n ≤ String.length (str cid))%nat.

#[global] Instance kept_dec (n : nat) (cid : Z) : Decision (kept n cid).
Proof. unfold kept. apply _. Defined.

(** A slot after classification: the identifier if kept, else the
    placeholder. *)
Definition slot (n : nat) (cid : Z) : option Z :=
  if decide (kept n cid) then Some cid else None.

(** A small catalog map and a decoded sequence used in the examples. *)
Definition sample_map : gmap Z Z :=
  <[1 := 1101]> (<[2 := 1202]> (<[3 := 13]>
    (<[211 := 211011]> (<[212 := 311002]> (<[300 := 99]> ∅))))).

Definition sample_share_ids : list Z :=
  [1; 2; 3; 212; 300; 211; 7] ++ replicate 26 0.

(** Working bytes alternating 0x10 and 0x20: under the key 0, and under
    the key 0xEB in a URL-safe token. *)
Definition golden_ids : list Z :=
  concat (replicate 8 [257; 16]) ++ [258; 32]
  ++ concat (replicate 7 [514; 32]) ++ [514].

(** The bytes [a2b_scan] has written for the pending quad when
    [quad_pos] of its characters were read. *)
Definition emitted (quad_pos : Z) : Z :=
  if quad_pos =? 0 then 0 else quad_pos - 1.

(** The message [b64decode] raises with on a [str] that is not ASCII. *)
Definition not_ascii : string :=
  "string argument should contain only ASCII characters".

(** A byte value. *)
Definition byte (b : Z) : Prop := 0 ≤ b ≤ 255.

(** ** [generate_deck_image] up to the image fetches (lines 174-186)

    The catalog map is obtained first, then the token is decoded, then the
    slots are classified. Opening the four asset images (lines 168-171)
    comes before and is taken to succeed. *)
Definition generate_deck_image_ids (net : network) (p : process)
  (b64_string : string) : result (list (option Z)) * process :=
  let '(r, p) := get_card_id_map net p in
  (id_map ← r;
   share_ids ← decode_share_ids b64_string;
   Ok (card_ids id_map share_ids), p).

(** The identifier an entry gives to share-ID [k]: entries without a
    [shareId] or an [id], or for another share-ID, give none. *)
Definition entry_for (k : Z) (it : item) : option Z :=
  match item_shareId it, item_id it with
  | Some (Some sid), Some v => if bool_decide (sid = k) then Some v else None
  | _, _ => None
  end.

(** The identifier of the last entry of a list for share-ID [k]. *)
Definition latest (k : Z) (items : list item) : option Z :=
  last (omap (entry_for k) items).

(** The entries a parsed body brings in. *)
Definition entries (data : body) : list item :=
  if body_success data then body_data data else [].

(** The cache never maps the share-ID 0. *)
Definition cache_ok (p : process) : Prop :=
  ∀ m, SHARE_ID_TO_ID_MAP p = Some m → m !! 0 = None.

(** A token and two catalogs used in the examples. *)
Definition golden_token : string :=
  "ECAQIBAgECAQIBAgECAQIBAgECAQIBAgECAQIBAgECAQIBAgECAQIBAgECAQIBAgECAA".

Definition sample_catalog : network :=
  answers
    (Body true [Item (Some (Some 257)) (Some 1503);
                Item (Some (Some 16)) (Some 1101)])
    (Body true [Item (Some (Some 32)) (Some 333001);
                Item (Some (Some 514)) (Some 212011);
                Item (Some (Some 258)) (Some 99)]).

(** No character of the string is white space. *)
Definition no_space (s : string) : Prop :=
  Forall (fun c => is_space c = false) (list_ascii_of_string s).

(** An image decoder, an image server and two stores used in the
    examples: bytes are taken as an image when they start with 137. *)
Definition sample_open (data : list Z) : result (list Z) :=
  match data with
  | 137 :: _ => Ok data
  | _ => Raise (ValueError "cannot identify image file")
  end.

Definition serving (data : list Z) : image_network := fun url =>
  Ok (ImageResponse 200 (Ok data)).


Definition empty_store : store := Store ∅ [].

Definition writable : disk := fun path data => Written.

Definition read_only : disk := fun path data => WriteFailed None.

Definition spoiled_store : store := Store {[cache_path 1101 := [60; 33]]} [].

(** The characters [a2b_scan] does not skip: [=] and the characters of
    the standard alphabet. *)
Definition scanned (c : ascii) : bool :=
  Ascii.eqb c BASE64_PAD || negb (64 <=? table_a2b_base64 c).

(** * Properties *)

Example decode_zero_token :
  decode_share_ids (str_mul "A" 68) = Ok (replicate 33 0).
Proof. vm_compute. reflexivity. Qed.

Example decode_golden_token :
  decode_share_ids
    "ECAQIBAgECAQIBAgECAQIBAgECAQIBAgECAQIBAgECAQIBAgECAQIBAgECAQIBAgECAA"
  = Ok golden_ids.
Proof. vm_compute. reflexivity. Qed.

Example decode_urlsafe_token :
  decode_share_ids
    "-wv7C_sL-wv7C_sL-wv7C_sL-wv7C_sL-wv7C_sL-wv7C_sL-wv7C_sL-wv7C_sL-wvr"
  = Ok golden_ids.
Proof. vm_compute. reflexivity. Qed.

(** ** Facts about the loops and list primitives *)

Section loops.

Lemma pop_snoc {A} (l : list A) (x : A) : pop (l ++ [x]) = Ok (x, l).
Proof.
  unfold pop. rewrite last_snoc. by rewrite removelast_last.
Qed.

Lemma snoc_of_length {A} (l : list A) (n : nat) :
  length l = S n → ∃ l' x, l = l' ++ [x] ∧ length l' = n.
Proof.
  intros Hlen. destruct l as [|y l] using rev_ind; [done|].
  exists l, y. split; [done|]. rewrite length_app in Hlen. simpl in Hlen. lia.
Qed.

Lemma getitem_lt {A} (l : list A) (i : nat) (d : A) :
  (i < length l)%nat → getitem l i = Ok (nth i l d).
Proof.
  intros Hi. unfold getitem.
  destruct (lookup_lt_is_Some_2 l i Hi) as [x Hx].
  rewrite Hx. f_equal. symmetry. by apply nth_lookup_Some.
Qed.

(** A loop that reads [arr[ix i]] and appends [h] of it never raises
    when every index is in range, and appends in index order. *)
Lemma for_each_append {A B} (arr : list A) (ix : nat → nat) (h : A → B)
  (d : A) (ixs : list nat) (acc : list B) :
  Forall (fun i => (ix i < length arr)%nat) ixs →
  for_each ixs (fun i r => x ← getitem arr (ix i); Ok (r ++ [h x])) acc
  = Ok (acc ++ map (fun i => h (nth (ix i) arr d)) ixs).
Proof.
  intros Hall. revert acc.
  induction Hall as [|i ixs Hi _ IH]; intros acc; simpl.
  - by rewrite app_nil_r.
  - rewrite (getitem_lt _ _ d Hi). simpl. rewrite IH.
    by rewrite <- app_assoc.
Qed.

Lemma Forall_range (P : nat → Prop) (n : nat) :
  (∀ i, (i < n)%nat → P i) → Forall P (range n).
Proof.
  intros HP. apply Forall_forall. intros i Hi.
  apply list_elem_of_In, in_seq in Hi. apply HP. lia.
Qed.

End loops.

Lemma reorder_ok (working : list Z) (key : Z) :
  (50 ≤ length working)%nat →
  reorder working key = Ok (reordered_of working key).
Proof.
  intros Hlen. unfold reorder.
  rewrite (for_each_append working (fun i => (2 * i)%nat)
             (fun x => Z.land (x - key) 255) 0).
  2:{ apply Forall_range. intros i Hi. lia. }
  cbn [mbind result_bind].
  rewrite (for_each_append working (fun i => (2 * i + 1)%nat)
             (fun x => Z.land (x - key) 255) 0).
  2:{ apply Forall_range. intros i Hi. lia. }
  cbn [mbind result_bind]. unfold reordered_of.
  by rewrite app_nil_l, <- app_assoc.
Qed.

Lemma length_reordered_of (working : list Z) (key : Z) :
  length (reordered_of working key) = 51%nat.
Proof. unfold reordered_of. by rewrite !length_app, !length_map. Qed.

Lemma extract_loop (reordered : list Z) (ixs : list nat) (acc : list Z) :
  Forall (fun i => (i * 3 + 2 < length reordered)%nat) ixs →
  for_each_break ixs (fun i result =>
    let chunk_start := (i * 3)%nat in
    if (length reordered <=? chunk_start + 2)%nat then Ok (Break result)
    else
      b1 ← getitem reordered chunk_start;
      b2 ← getitem reordered (chunk_start + 1);
      b3 ← getitem reordered (chunk_start + 2);
      Ok (Next (result ++ [n1 b1 b2; n2 b2 b3]))) acc
  = Ok (acc ++ flat_map (chunk_values reordered) ixs).
Proof.
  intros Hall. revert acc.
  induction Hall as [|i ixs Hi _ IH]; intros acc; simpl.
  - by rewrite app_nil_r.
  - destruct (Nat.leb_spec (length reordered) (i * 3 + 2)) as [Hle|_]; [lia|].
    rewrite (getitem_lt reordered (i * 3) 0) by lia.
    rewrite (getitem_lt reordered (i * 3 + 1) 0) by lia.
    rewrite (getitem_lt reordered (i * 3 + 2) 0) by lia.
    simpl. rewrite IH. unfold chunk_values at 2. simpl.
    by rewrite <- app_assoc.
Qed.

Lemma extract_ok (reordered : list Z) :
  (51 ≤ length reordered)%nat →
  extract reordered = Ok (flat_map (chunk_values reordered) (range 17)).
Proof.
  intros Hlen. unfold extract. rewrite extract_loop; [done|].
  apply Forall_range. intros i Hi. lia.
Qed.

Lemma length_flat_map_chunks (reordered : list Z) (ixs : list nat) :
  length (flat_map (chunk_values reordered) ixs) = (2 * length ixs)%nat.
Proof.
  induction ixs as [|i ixs IH]; [done|].
  cbn [flat_map]. rewrite length_app, IH. simpl. lia.
Qed.

(** What [unpack] returns on 51 bytes: the first 33 of the 34 chunk values
    of the reordered buffer. *)
Lemma unpack_ok (working : list Z) (key : Z) :
  length working = 50%nat →
  unpack (working ++ [key])
  = Ok (take 33 (flat_map (chunk_values (reordered_of working key)) (range 17))).
Proof.
  intros Hlen. unfold unpack. rewrite pop_snoc. cbn [mbind result_bind].
  rewrite reorder_ok by lia. cbn [mbind result_bind].
  rewrite extract_ok by (rewrite length_reordered_of; lia).
  cbn [mbind result_bind].
  set (vals := flat_map _ _).
  assert (Hvals : length vals = 34%nat).
  { unfold vals. by rewrite length_flat_map_chunks. }
  destruct (snoc_of_length vals 33 Hvals) as (front & x & -> & Hfront).
  rewrite pop_snoc. f_equal.
  by rewrite take_app_length'.
Qed.

(** ** Ranges of the unpacked values *)

Lemma land_255_mod (x : Z) : Z.land x 255 = x `mod` 256.
Proof. change 255 with (Z.ones 8). by rewrite Z.land_ones by lia. Qed.

Lemma land_255_range (x : Z) : 0 ≤ Z.land x 255 ≤ 255.
Proof.
  rewrite land_255_mod. pose proof (Z.mod_pos_bound x 256). lia.
Qed.

Lemma log2_lt_12 (a : Z) : 0 ≤ a < 4096 → Z.log2 a < 12.
Proof.
  intros [H0 H1]. destruct (Z.eq_dec a 0) as [->|Hne]; [done|].
  apply Z.log2_lt_pow2; lia.
Qed.

Lemma lor_12_bits (a b : Z) :
  0 ≤ a < 4096 → 0 ≤ b < 4096 → 0 ≤ Z.lor a b ≤ 4095.
Proof.
  intros Ha Hb.
  assert (H0 : 0 ≤ Z.lor a b) by (apply Z.lor_nonneg; lia).
  split; [done|].
  destruct (Z.eq_dec (Z.lor a b) 0) as [->|Hne]; [done|].
  cut (Z.lor a b < 2 ^ 12); [lia|].
  apply Z.log2_lt_pow2; [lia|].
  rewrite Z.log2_lor by lia.
  apply Z.max_lub_lt; by apply log2_lt_12.
Qed.

Lemma n1_range (b1 b2 : Z) :
  0 ≤ b1 ≤ 255 → 0 ≤ b2 ≤ 255 → 0 ≤ n1 b1 b2 ≤ 4095.
Proof.
  intros H1 H2. unfold n1. apply lor_12_bits.
  - rewrite Z.shiftl_mul_pow2 by lia. lia.
  - rewrite Z.shiftr_div_pow2 by lia.
    pose proof (Z.div_pos b2 (2 ^ 4)).
    pose proof (Z.div_le_upper_bound b2 (2 ^ 4) 255). lia.
Qed.

Lemma n2_range (b2 b3 : Z) :
  0 ≤ b3 ≤ 255 → 0 ≤ n2 b2 b3 ≤ 4095.
Proof.
  intros H3. unfold n2. apply lor_12_bits; [|lia].
  change 15 with (Z.ones 4). rewrite Z.land_ones by lia.
  rewrite Z.shiftl_mul_pow2 by lia.
  pose proof (Z.mod_pos_bound b2 (2 ^ 4)). lia.
Qed.

Lemma reordered_of_bytes (working : list Z) (key : Z) :
  Forall (fun b => 0 ≤ b ≤ 255) (reordered_of working key).
Proof.
  unfold reordered_of. repeat apply Forall_app_2.
  - apply Forall_map, Forall_true. intros i. apply land_255_range.
  - apply Forall_map, Forall_true. intros i. apply land_255_range.
  - by repeat constructor.
Qed.

Lemma nth_byte (l : list Z) (i : nat) :
  Forall (fun b => 0 ≤ b ≤ 255) l → 0 ≤ nth i l 0 ≤ 255.
Proof.
  intros Hall. destruct (nth_in_or_default i l 0) as [Hin| ->]; [|lia].
  rewrite Forall_forall in Hall. by apply Hall, list_elem_of_In.
Qed.

Lemma chunk_values_range (reordered : list Z) (ixs : list nat) :
  Forall (fun b => 0 ≤ b ≤ 255) reordered →
  Forall (fun n => 0 ≤ n ≤ 4095) (flat_map (chunk_values reordered) ixs).
Proof.
  intros Hbytes. induction ixs as [|i ixs IH]; [constructor|].
  cbn [flat_map]. apply Forall_app_2; [|done].
  unfold chunk_values. repeat constructor.
  - apply n1_range; by apply nth_byte.
  - apply n1_range; by apply nth_byte.
  - apply n2_range; by apply nth_byte.
  - apply n2_range; by apply nth_byte.
Qed.

(** On a decoded buffer, [decode_share_ids] is the length check followed
    by [unpack]. *)
Lemma decode_share_ids_decoded (s : string) (raw : list Z) :
  b64decode (normalize s) = inr raw →
  decode_share_ids s
  = if bool_decide (length raw ≠ 51%nat)
    then Raise (ValueError (wrong_length +:+ str (Z.of_nat (length raw))))
    else unpack raw.
Proof. intros Hraw. unfold decode_share_ids. by rewrite Hraw. Qed.

Lemma decode_share_ids_51 (s : string) (raw : list Z) :
  b64decode (normalize s) = inr raw → length raw = 51%nat →
  ∃ working key,
    raw = working ++ [key] ∧ length working = 50%nat ∧
    decode_share_ids s
    = Ok (take 33 (flat_map (chunk_values (reordered_of working key)) (range 17))).
Proof.
  intros Hraw Hlen.
  destruct (snoc_of_length raw 50 Hlen) as (working & key & -> & Hw).
  exists working, key. repeat split; [done|].
  rewrite (decode_share_ids_decoded _ _ Hraw).
  rewrite bool_decide_false by (intros Hne; by apply Hne).
  by apply unpack_ok.
Qed.

(** ** The decoder's contract *)

(** C1: whenever the normalized token Base64-decodes to exactly 51 bytes,
    [decode_share_ids] returns (it is a total function, so it terminates)
    a list of exactly 33 integers, each between 0 and 4095. *)
Theorem decode_share_ids_33_values (s : string) (raw : list Z) :
  b64decode (normalize s) = inr raw →
  length raw = 51%nat →
  ∃ ids, decode_share_ids s = Ok ids ∧
         length ids = 33%nat ∧
         Forall (fun n => 0 ≤ n ≤ 4095) ids.
Proof.
  intros Hraw Hlen.
  destruct (decode_share_ids_51 s raw Hraw Hlen) as (working & key & _ & _ & ->).
  eexists. split; [done|]. split.
  - rewrite length_take, length_flat_map_chunks. done.
  - apply Forall_take, chunk_values_range, reordered_of_bytes.
Qed.

Lemma decode_share_ids_33_values_witness :
  ∃ ids, decode_share_ids (str_mul "A" 68) = Ok ids ∧
         length ids = 33%nat ∧
         Forall (fun n => 0 ≤ n ≤ 4095) ids.
Proof.
  apply (decode_share_ids_33_values (str_mul "A" 68) (replicate 51 0));
    vm_compute; reflexivity.
Defined.

Lemma reordered_of_lookup (working : list Z) (key : Z) (i : nat) :
  (i < 25)%nat →
  reordered_of working key !! i
    = Some ((nth (2 * i) working 0 - key) `mod` 256) ∧
  reordered_of working key !! (25 + i)%nat
    = Some ((nth (2 * i + 1) working 0 - key) `mod` 256).
Proof.
  intros Hi. unfold reordered_of, range. split.
  - rewrite lookup_app_l by (rewrite length_map, length_seq; lia).
    rewrite list_lookup_fmap, lookup_seq_lt by lia.
    simpl. by rewrite land_255_mod.
  - rewrite lookup_app_r by (rewrite length_map, length_seq; lia).
    rewrite length_map, length_seq.
    replace (25 + i - 25)%nat with i by lia.
    rewrite lookup_app_l by (rewrite length_map, length_seq; lia).
    rewrite list_lookup_fmap, lookup_seq_lt by lia.
    simpl. by rewrite land_255_mod.
Qed.

(** C2: with the last raw byte removed as the key, the reordered buffer
    has 51 bytes; byte [i] is [(working[2*i] - key) mod 256] and byte
    [25+i] is [(working[2*i+1] - key) mod 256] for [i] in 0..24, byte 50
    is 0, and the rest of [decode_share_ids] runs on this buffer. *)
Theorem reordered_buffer_layout (s : string) (raw : list Z) :
  b64decode (normalize s) = inr raw →
  length raw = 51%nat →
  ∃ working key reordered,
    pop raw = Ok (key, working) ∧
    length working = 50%nat ∧
    reorder working key = Ok reordered ∧
    length reordered = 51%nat ∧
    (∀ i, (i < 25)%nat →
       ∃ w0 w1,
         working !! (2 * i)%nat = Some w0 ∧
         working !! (2 * i + 1)%nat = Some w1 ∧
         reordered !! i = Some ((w0 - key) `mod` 256) ∧
         reordered !! (25 + i)%nat = Some ((w1 - key) `mod` 256)) ∧
    reordered !! 50%nat = Some 0 ∧
    decode_share_ids s
    = (result ← extract reordered; '(_, result) ← pop result; Ok result).
Proof.
  intros Hraw Hlen.
  destruct (snoc_of_length raw 50 Hlen) as (working & key & -> & Hw).
  exists working, key, (reordered_of working key).
  split; [apply pop_snoc|]. split; [done|].
  split; [apply reorder_ok; lia|].
  split; [apply length_reordered_of|].
  split; [|split].
  - intros i Hi.
    destruct (lookup_lt_is_Some_2 working (2 * i)) as [w0 Hw0]; [lia|].
    destruct (lookup_lt_is_Some_2 working (2 * i + 1)) as [w1 Hw1]; [lia|].
    exists w0, w1. split; [done|]. split; [done|].
    destruct (reordered_of_lookup working key i Hi) as [H0 H1].
    rewrite H0, H1.
    by rewrite (nth_lookup_Some _ _ 0 _ Hw0), (nth_lookup_Some _ _ 0 _ Hw1).
  - unfold reordered_of, range.
    rewrite lookup_app_r by (rewrite length_map, length_seq; lia).
    rewrite lookup_app_r by (rewrite !length_map, !length_seq; lia).
    by rewrite !length_map, !length_seq.
  - rewrite (decode_share_ids_decoded _ _ Hraw).
    rewrite bool_decide_false by (intros Hne; by apply Hne).
    unfold unpack. rewrite pop_snoc. cbn [mbind result_bind].
    by rewrite reorder_ok by lia.
Qed.

Lemma reordered_buffer_layout_witness :
  ∃ working key reordered,
    pop (replicate 51 0) = Ok (key, working) ∧
    length working = 50%nat ∧
    reorder working key = Ok reordered ∧
    length reordered = 51%nat ∧
    (∀ i, (i < 25)%nat →
       ∃ w0 w1,
         working !! (2 * i)%nat = Some w0 ∧
         working !! (2 * i + 1)%nat = Some w1 ∧
         reordered !! i = Some ((w0 - key) `mod` 256) ∧
         reordered !! (25 + i)%nat = Some ((w1 - key) `mod` 256)) ∧
    reordered !! 50%nat = Some 0 ∧
    decode_share_ids (str_mul "A" 68)
    = (result ← extract reordered; '(_, result) ← pop result; Ok result).
Proof.
  apply (reordered_buffer_layout (str_mul "A" 68) (replicate 51 0));
    vm_compute; reflexivity.
Defined.

(** C3: the 51-byte reordered buffer is read as 17 consecutive 3-byte
    chunks; chunk [(b1, b2, b3)] contributes [n1 = (b1 << 4) | (b2 >> 4)]
    and then [n2 = ((b2 & 0x0F) << 8) | b3]; the loop produces these 34
    values and [decode_share_ids] returns the first 33 of them, in order. *)
Theorem decode_share_ids_chunks (s : string) (raw : list Z) :
  b64decode (normalize s) = inr raw →
  length raw = 51%nat →
  ∃ working key reordered values,
    pop raw = Ok (key, working) ∧
    reorder working key = Ok reordered ∧
    length reordered = 51%nat ∧
    extract reordered = Ok values ∧
    length values = 34%nat ∧
    (∀ i, (i < 17)%nat →
       ∃ b1 b2 b3,
         reordered !! (3 * i)%nat = Some b1 ∧
         reordered !! (3 * i + 1)%nat = Some b2 ∧
         reordered !! (3 * i + 2)%nat = Some b3 ∧
         values !! (2 * i)%nat
           = Some (Z.lor (Z.shiftl b1 4) (Z.shiftr b2 4)) ∧
         values !! (2 * i + 1)%nat
           = Some (Z.lor (Z.shiftl (Z.land b2 15) 8) b3)) ∧
    decode_share_ids s = Ok (take 33 values).
Proof.
  intros Hraw Hlen.
  destruct (decode_share_ids_51 s raw Hraw Hlen)
    as (working & key & -> & Hw & Hdec).
  set (reordered := reordered_of working key) in *.
  assert (Hr : length reordered = 51%nat) by apply length_reordered_of.
  exists working, key, reordered, (flat_map (chunk_values reordered) (range 17)).
  split; [apply pop_snoc|].
  split; [apply reorder_ok; lia|].
  split; [done|].
  split; [apply extract_ok; lia|].
  split; [by rewrite length_flat_map_chunks|].
  split; [|done].
  intros i Hi.
  destruct (lookup_lt_is_Some_2 reordered (3 * i)) as [b1 Hb1]; [lia|].
  destruct (lookup_lt_is_Some_2 reordered (3 * i + 1)) as [b2 Hb2]; [lia|].
  destruct (lookup_lt_is_Some_2 reordered (3 * i + 2)) as [b3 Hb3]; [lia|].
  exists b1, b2, b3. repeat (split; [done|]).
  assert (Hchunk : chunk_values reordered i = [n1 b1 b2; n2 b2 b3]).
  { unfold chunk_values. replace (i * 3)%nat with (3 * i)%nat by lia.
    by rewrite (nth_lookup_Some _ _ 0 _ Hb1), (nth_lookup_Some _ _ 0 _ Hb2),
         (nth_lookup_Some _ _ 0 _ Hb3). }
  clearbody reordered. clear -Hi Hchunk.
  assert (Hgen : ∀ n k, (k ≤ i < k + n)%nat →
    flat_map (chunk_values reordered) (seq k n) !! (2 * (i - k))%nat
      = Some (n1 b1 b2) ∧
    flat_map (chunk_values reordered) (seq k n) !! (2 * (i - k) + 1)%nat
      = Some (n2 b2 b3)).
  { induction n as [|n IH]; intros k Hk; [lia|].
    cbn [seq flat_map].
    destruct (decide (i = k)) as [->|Hne].
    - rewrite Hchunk. replace (k - k)%nat with 0%nat by lia. done.
    - destruct (IH (S k)) as [IH1 IH2]; [lia|].
      replace (2 * (i - k))%nat with (2 + 2 * (i - S k))%nat by lia.
      replace (2 + 2 * (i - S k) + 1)%nat with (2 + (2 * (i - S k) + 1))%nat
        by lia.
      unfold chunk_values at 1 3. cbn [app lookup list_lookup].
      done. }
  destruct (Hgen 17%nat 0%nat) as [H1 H2]; [lia|].
  rewrite Nat.sub_0_r in H1, H2. done.
Qed.

Lemma decode_share_ids_chunks_witness :
  ∃ working key reordered values,
    pop (replicate 51 0) = Ok (key, working) ∧
    reorder working key = Ok reordered ∧
    length reordered = 51%nat ∧
    extract reordered = Ok values ∧
    length values = 34%nat ∧
    (∀ i, (i < 17)%nat →
       ∃ b1 b2 b3,
         reordered !! (3 * i)%nat = Some b1 ∧
         reordered !! (3 * i + 1)%nat = Some b2 ∧
         reordered !! (3 * i + 2)%nat = Some b3 ∧
         values !! (2 * i)%nat
           = Some (Z.lor (Z.shiftl b1 4) (Z.shiftr b2 4)) ∧
         values !! (2 * i + 1)%nat
           = Some (Z.lor (Z.shiftl (Z.land b2 15) 8) b3)) ∧
    decode_share_ids (str_mul "A" 68) = Ok (take 33 values).
Proof.
  apply (decode_share_ids_chunks (str_mul "A" 68) (replicate 51 0));
    vm_compute; reflexivity.
Defined.

(** C4: on a 51-byte buffer the steps after the length check never raise,
    whatever the byte values and the key; so [decode_share_ids] either
    returns, or raises the decode error of [b64decode], or raises the
    length error of the length-51 check, and nothing else. *)
Theorem decode_share_ids_failure_points :
  (∀ raw : list Z, length raw = 51%nat → ∃ ids, unpack raw = Ok ids) ∧
  (∀ s : string,
     match b64decode (normalize s) with
     | inl e => decode_share_ids s = Raise (ValueError (decode_failed +:+ e))
     | inr raw =>
         if decide (length raw = 51%nat)
         then ∃ ids, decode_share_ids s = Ok ids
         else decode_share_ids s
              = Raise (ValueError
                         (wrong_length +:+ str (Z.of_nat (length raw))))
     end).
Proof.
  split.
  - intros raw Hlen.
    destruct (snoc_of_length raw 50 Hlen) as (working & key & -> & Hw).
    eexists. by apply unpack_ok.
  - intros s. destruct (b64decode (normalize s)) as [e|raw] eqn:Hraw.
    + unfold decode_share_ids. by rewrite Hraw.
    + destruct (decide (length raw = 51%nat)) as [Hlen|Hlen].
      * destruct (decode_share_ids_51 s raw Hraw Hlen) as (w & k & _ & _ & ->).
        by eexists.
      * rewrite (decode_share_ids_decoded _ _ Hraw).
        by rewrite bool_decide_true.
Qed.

Lemma decode_share_ids_failure_points_witness :
  (∃ ids, unpack (replicate 51 255) = Ok ids) ∧
  decode_share_ids "A"
  = Raise (ValueError (decode_failed +:+
      "Invalid base64-encoded string: number of data characters (1) cannot be 1 more than a multiple of 4")) ∧
  decode_share_ids "AAAA"
  = Raise (ValueError (wrong_length +:+ "3")).
Proof.
  destruct decode_share_ids_failure_points as [Hunpack Hfail].
  split; [apply (Hunpack (replicate 51 255)); reflexivity|].
  split.
  - exact (Hfail "A").
  - exact (Hfail "AAAA").
Defined.

(** C5: whenever the normalized token Base64-decodes to a byte sequence
    whose length is not 51, [decode_share_ids] raises the length error,
    and its message ends with that length in decimal. *)
Theorem decode_share_ids_wrong_length (s : string) (raw : list Z) :
  b64decode (normalize s) = inr raw →
  length raw ≠ 51%nat →
  decode_share_ids s
  = Raise (ValueError (wrong_length +:+ str (Z.of_nat (length raw)))).
Proof.
  intros Hraw Hlen. rewrite (decode_share_ids_decoded _ _ Hraw).
  by rewrite bool_decide_true.
Qed.

Lemma decode_share_ids_wrong_length_witness :
  decode_share_ids (str_mul "A" 72)
  = Raise (ValueError (wrong_length +:+ "54")).
Proof.
  apply (decode_share_ids_wrong_length (str_mul "A" 72) (replicate 54 0)).
  - vm_compute. reflexivity.
  - vm_compute. intros H. discriminate H.
Defined.

(** ** Normalization and tokens of a bad length *)

Lemma list_ascii_of_string_app (s t : string) :
  list_ascii_of_string (s +:+ t)
  = list_ascii_of_string s ++ list_ascii_of_string t.
Proof. induction s as [|c s IH]; [done|]. simpl. by rewrite IH. Qed.

Lemma length_list_ascii_of_string (s : string) :
  length (list_ascii_of_string s) = String.length s.
Proof. induction s as [|c s IH]; [done|]. simpl. by rewrite IH. Qed.

Lemma list_ascii_of_str_mul (c : ascii) (n : nat) :
  list_ascii_of_string (str_mul c n) = replicate n c.
Proof. induction n as [|n IH]; [done|]. simpl. by rewrite IH. Qed.

Lemma length_str_mul (c : ascii) (n : nat) : String.length (str_mul c n) = n.
Proof. induction n as [|n IH]; [done|]. simpl. by rewrite IH. Qed.

Lemma length_append (s t : string) :
  String.length (s +:+ t) = (String.length s + String.length t)%nat.
Proof. induction s as [|c s IH]; [done|]. simpl. by rewrite IH. Qed.

Lemma append_empty_r (s : string) : s +:+ "" = s.
Proof.
  induction s as [|c s IH]; [done|].
  change (String c (s +:+ "") = String c s). by rewrite IH.
Qed.

Lemma length_replace (old new : ascii) (s : string) :
  String.length (replace old new s) = String.length s.
Proof. induction s as [|c s IH]; [done|]. simpl. by rewrite IH. Qed.

Lemma translate_replace (s : string) :
  list_ascii_of_string (replace "_" "/" (replace "-" "+" s))
  = map translate_char (list_ascii_of_string s).
Proof.
  induction s as [|c s IH]; [done|]. simpl. rewrite IH. f_equal.
  unfold translate_char. destruct (Ascii.eqb c "-") eqn:Hc; [done|].
  done.
Qed.

(** The shape of the normalized token. *)
Lemma normalize_shape (s : string) :
  ∃ k : nat,
    (k < 4)%nat ∧
    ((String.length s + k) mod 4 = 0)%nat ∧
    normalize s = replace "_" "/" (replace "-" "+" s) +:+ str_mul "=" k.
Proof.
  unfold normalize. rewrite !length_replace.
  pose proof (Nat.mod_upper_bound (String.length s) 4 ltac:(lia)) as Hlt.
  pose proof (Nat.div_mod_eq (String.length s) 4) as Hdm.
  destruct (Nat.eqb_spec (String.length s mod 4) 0) as [H0|H0].
  - exists 0%nat. split; [lia|]. split; [by rewrite Nat.add_0_r|].
    simpl. by rewrite append_empty_r.
  - exists (4 - String.length s mod 4)%nat. split; [lia|]. split; [|done].
    rewrite Hdm at 1.
    replace (4 * (String.length s `div` 4) + String.length s `mod` 4
             + (4 - String.length s `mod` 4))%nat
      with ((1 + String.length s `div` 4) * 4)%nat by lia.
    apply Nat.Div0.mod_mul.
Qed.

(** Characters of the alphabet translate to data characters of the
    standard alphabet. *)
Lemma translate_char_data (c : ascii) :
  in_alphabet c = true →
  is_ascii (translate_char c) = true ∧
  Ascii.eqb (translate_char c) BASE64_PAD = false ∧
  (64 <=? table_a2b_base64 (translate_char c)) = false.
Proof.
  destruct c as [[] [] [] [] [] [] [] []]; vm_compute; intros H;
    first [discriminate H | done].
Qed.

(** Scanning [n] data characters advances the position in the quad by [n]
    modulo 4. *)
Lemma a2b_scan_data (data rest : list ascii) (quad_pos leftchar pads : Z)
  (bin_data : list Z) :
  Forall data_char data →
  0 ≤ quad_pos < 4 →
  ∃ leftchar' pads' bin_data',
    a2b_scan (data ++ rest) quad_pos leftchar pads bin_data
    = a2b_scan rest ((quad_pos + Z.of_nat (length data)) `mod` 4)
        leftchar' pads' bin_data'.
Proof.
  intros Hdata. revert quad_pos leftchar pads bin_data.
  induction Hdata as [|c data [Hpad Htab] _ IH];
    intros quad_pos leftchar pads bin_data Hq.
  - exists leftchar, pads, bin_data. cbn [app length Z.of_nat].
    by rewrite Z.add_0_r, Z.mod_small by lia.
  - cbn [app a2b_scan length]. rewrite Hpad. cbn zeta. rewrite Htab.
    assert (Hstep : ∀ q, 0 ≤ q < 4 →
      ((quad_pos + 1) `mod` 4 + Z.of_nat (length data)) `mod` 4
      = (quad_pos + Z.of_nat (S (length data))) `mod` 4).
    { intros q _. rewrite Zplus_mod_idemp_l. f_equal. lia. }
    rewrite <- (Hstep quad_pos Hq).
    destruct (Z.eqb_spec quad_pos 0) as [->|H0]; [apply (IH 1); lia|].
    destruct (Z.eqb_spec quad_pos 1) as [->|H1]; [apply (IH 2); lia|].
    destruct (Z.eqb_spec quad_pos 2) as [->|H2]; [apply (IH 3); lia|].
    assert (quad_pos = 3) as -> by lia. apply (IH 0). lia.
Qed.

(** Pad characters met with one character of a quad pending are skipped. *)
Lemma a2b_scan_pads_at_1 (n : nat) (leftchar pads : Z) (bin_data : list Z) :
  a2b_scan (replicate n BASE64_PAD) 1 leftchar pads bin_data
  = Exhausted 1 bin_data.
Proof. induction n as [|n IH]; [done|]. simpl. apply IH. Qed.

Lemma forallb_is_ascii_normalized (l : list ascii) (k : nat) :
  forallb in_alphabet l = true →
  forallb is_ascii (map translate_char l ++ replicate k BASE64_PAD) = true.
Proof.
  intros Hl. rewrite forallb_app. apply andb_true_iff. split.
  - induction l as [|c l IH]; [done|]. simpl in *.
    apply andb_true_iff in Hl as [Hc Hl]. apply andb_true_iff. split.
    + by apply translate_char_data.
    + by apply IH.
  - induction k as [|k IH]; [done|]. simpl. by rewrite IH.
Qed.

Lemma Forall_data_char_translated (l : list ascii) :
  forallb in_alphabet l = true → Forall data_char (map translate_char l).
Proof.
  induction l as [|c l IH]; intros Hl; [constructor|].
  simpl in Hl. apply andb_true_iff in Hl as [Hc Hl].
  constructor; [|by apply IH].
  destruct (translate_char_data c Hc) as (_ & Hpad & Htab). by split.
Qed.

(** A token over the alphabet whose length is 1 modulo 4 leaves one
    character of a quad pending, which [a2b_base64] rejects. *)
Lemma b64decode_one_extra (s : string) :
  forallb in_alphabet (list_ascii_of_string s) = true →
  (String.length s mod 4 = 1)%nat →
  ∃ n, b64decode (normalize s) = inl (one_extra_character n).
Proof.
  intros Halpha Hmod.
  destruct (normalize_shape s) as (k & _ & _ & ->).
  unfold b64decode. cbn zeta.
  rewrite list_ascii_of_string_app, translate_replace, list_ascii_of_str_mul.
  change (replicate k "="%char) with (replicate k BASE64_PAD).
  rewrite forallb_is_ascii_normalized by done.
  unfold a2b_base64.
  destruct (a2b_scan_data (map translate_char (list_ascii_of_string s))
              (replicate k BASE64_PAD) 0 0 0 [])
    as (leftchar & pads & bin_data & ->);
    [by apply Forall_data_char_translated | lia |].
  rewrite length_map, length_list_ascii_of_string, Z.add_0_l.
  change 4 with (Z.of_nat 4). rewrite <- Nat2Z.inj_mod, Hmod.
  change (Z.of_nat 1) with 1. rewrite a2b_scan_pads_at_1.
  cbn [Z.eqb Pos.eqb]. by eexists.
Qed.

(** C6 (amended): the URL-safe characters [-] and [_] are translated to
    [+] and [/], then [=] characters are appended until the length is a
    multiple of 4, and it is this translated and padded string that
    [decode_share_ids] hands to [b64decode], for every token: its result
    is the decode error of that call, or the length error, or the
    unpacking of the 51 bytes that call gives. Every token made only of
    characters of the Base64 alphabets (letters, digits, [+], [/], [-],
    [_]) whose length is congruent to 1 modulo 4 fails with the decode
    error. *)
Theorem normalize_then_decode (s : string) :
  let translated := replace "_" "/" (replace "-" "+" s) in
  list_ascii_of_string translated
    = map translate_char (list_ascii_of_string s) ∧
  (∃ k : nat,
     (k < 4)%nat ∧
     ((String.length s + k) mod 4 = 0)%nat ∧
     normalize s = translated +:+ str_mul "=" k ∧
     decode_share_ids s
     = match b64decode (translated +:+ str_mul "=" k) with
       | inl e => Raise (ValueError (decode_failed +:+ e))
       | inr raw =>
           if decide (length raw = 51%nat) then unpack raw
           else Raise (ValueError
                         (wrong_length +:+ str (Z.of_nat (length raw))))
       end) ∧
  (forallb in_alphabet (list_ascii_of_string s) = true →
   (String.length s mod 4 = 1)%nat →
   ∃ n,
     b64decode (normalize s) = inl (one_extra_character n) ∧
     decode_share_ids s
     = Raise (ValueError (decode_failed +:+ one_extra_character n))).
Proof.
  cbn zeta. split; [apply translate_replace|]. split.
  - destruct (normalize_shape s) as (k & Hk & Hmod & Hnorm).
    exists k. split; [done|]. split; [done|]. split; [done|].
    rewrite <- Hnorm. unfold decode_share_ids.
    destruct (b64decode (normalize s)) as [e|raw]; [done|].
    destruct (decide (length raw = 51%nat)) as [Hlen|Hlen].
    + by rewrite bool_decide_false by (intros Hne; by apply Hne).
    + by rewrite bool_decide_true.
  - intros Halpha Hmod.
    destruct (b64decode_one_extra s Halpha Hmod) as [n Hn].
    exists n. split; [done|]. unfold decode_share_ids. by rewrite Hn.
Qed.

Lemma normalize_then_decode_witness :
  ∃ n,
    b64decode (normalize "AbBQ-") = inl (one_extra_character n) ∧
    decode_share_ids "AbBQ-"
    = Raise (ValueError (decode_failed +:+ one_extra_character n)).
Proof.
  apply (proj2 (proj2 (normalize_then_decode "AbBQ-"))); reflexivity.
Defined.

Example decode_short_token_is_padded :
  decode_share_ids "AA" = Raise (ValueError (wrong_length +:+ "1")) ∧
  b64decode "AA" = inl "Incorrect padding".
Proof. vm_compute. split; reflexivity. Qed.

(** C6 as stated fails: a token of length 69 (1 modulo 4) made of 68
    alphabet characters and one space decodes to 51 bytes, the space and
    the appended [=] characters being skipped by the library decoder. *)
Lemma length_1_mod_4_token_decodes :
  let s := str_mul "A" 68 +:+ " " in
  (String.length s mod 4 = 1)%nat ∧
  normalize s = s +:+ "===" ∧
  decode_share_ids s = Ok (replicate 33 0).
Proof. vm_compute. repeat split; reflexivity. Qed.

(** ** The catalog map *)

Lemma gather_ok {A} (tasks : list (result A)) (rs : list A) :
  gather tasks = Ok rs → tasks = map Ok rs.
Proof.
  revert rs. induction tasks as [|t tasks IH]; intros rs Hg; simpl in Hg.
  - by injection Hg as <-.
  - destruct t as [r|e]; [|done]. simpl in Hg.
    destruct (gather tasks) as [rs'|e]; [|done]. simpl in Hg.
    injection Hg as <-. simpl. f_equal. by apply IH.
Qed.

Lemma collect_raises (responses : list response) (id_map : gmap Z Z) :
  Exists failing responses → ∃ e, collect responses id_map = Raise e.
Proof.
  intros Hex. revert id_map.
  induction responses as [|resp rest IH]; intros id_map;
    [by apply Exists_nil in Hex|].
  simpl. apply Exists_cons in Hex.
  destruct (Z.eqb_spec (status resp) 200) as [H200|H200].
  - destruct (json resp) as [data|e] eqn:Hjson; [|by eexists].
    assert (Hrest : Exists failing rest).
    { destruct Hex as [[Hst|[_ [e He]]]|Hrest]; [lia|congruence|done]. }
    simpl. destruct (body_success data); by apply IH.
  - unfold raise_for_status.
    destruct (Z.leb_spec 400 (status resp)) as [H400|H400]; [by eexists|].
    simpl. apply IH.
    destruct Hex as [[Hst|[Hst _]]|Hrest]; [lia|lia|done].
Qed.

(** C7 (amended): when the map has to be built, a catalog request that
    raises, a response with a status of 400 or above, or a status-200
    response whose body fails to parse makes [get_card_id_map] raise; no
    map is returned and the cache keeps its value. A status-200 response
    whose body does not indicate success raises nothing: it is skipped,
    and the map built from the other responses is returned and cached. *)
Theorem get_card_id_map_failures (net : network) (p : process) :
  cached p = None →
  ((∃ url, url ∈ urls ∧
      match net url with
      | Raise _ => True
      | Ok resp => failing resp
      end) →
   ∃ e, get_card_id_map net p
        = (Raise e, Process (SHARE_ID_TO_ID_MAP p) (requested p ++ urls))) ∧
  (∀ data1 data2,
     net characters_url = Ok (Response 200 (Ok data1)) →
     net action_cards_url = Ok (Response 200 (Ok data2)) →
     let id_map := contribution data2 (contribution data1 ∅) in
     get_card_id_map net p
     = (Ok id_map, Process (Some id_map) (requested p ++ urls))).
Proof.
  intros Hcache. unfold get_card_id_map. rewrite Hcache. split.
  - intros (url & Hurl & Hbad).
    destruct (gather (map net urls)) as [responses|e] eqn:Hg; [|by eexists].
    cbn [mbind result_bind].
    apply gather_ok in Hg.
    assert (Hex : Exists failing responses).
    { apply list_elem_of_In, (in_map net) in Hurl.
      rewrite Hg in Hurl. apply in_map_iff in Hurl as (resp & Hresp & Hin).
      rewrite <- Hresp in Hbad. apply Exists_exists.
      exists resp. split; [by apply list_elem_of_In|done]. }
    destruct (collect_raises responses ∅ Hex) as [e ->]. by eexists.
  - intros data1 data2 H1 H2. unfold urls.
    cbn [map gather]. rewrite H1, H2. cbn [mbind result_bind collect status json].
    cbn [Z.eqb Pos.eqb mbind result_bind]. unfold contribution.
    destruct (body_success data1), (body_success data2); done.
Qed.

Lemma get_card_id_map_failures_witness :
  (∃ e, get_card_id_map unreachable started = (Raise e, Process None urls)) ∧
  get_card_id_map
    (answers (Body false [Item (Some (Some 1)) (Some 1101)])
             (Body true [Item (Some (Some 211)) (Some 211011)]))
    started
  = (Ok (<[211 := 211011]> ∅), Process (Some (<[211 := 211011]> ∅)) urls).
Proof.
  split.
  - apply (proj1 (get_card_id_map_failures unreachable started eq_refl)).
    exists characters_url. split; [|exact I].
    apply list_elem_of_here.
  - exact (proj2 (get_card_id_map_failures _ started eq_refl)
             (Body false [Item (Some (Some 1)) (Some 1101)])
             (Body true [Item (Some (Some 211)) (Some 211011)])
             eq_refl eq_refl).
Defined.

(** C7 as stated fails: with the characters catalog answering 200 with a
    body that does not indicate success, nothing is raised, and the map
    built from the action-cards catalog alone is returned and cached. *)
Lemma unsuccessful_catalog_is_skipped :
  get_card_id_map
    (answers (Body false [Item (Some (Some 1)) (Some 1101)])
             (Body true [Item (Some (Some 211)) (Some 211011)]))
    started
  = (Ok (<[211 := 211011]> ∅), Process (Some (<[211 := 211011]> ∅)) urls).
Proof. vm_compute. reflexivity. Qed.

Lemma get_card_id_map_keeps_cache (net : network) (p p' : process)
  (m : gmap Z Z) :
  get_card_id_map net p = (Ok m, p') → m ≠ ∅ → cached p' = Some m.
Proof.
  intros Hcall Hm. unfold get_card_id_map in Hcall.
  destruct (cached p) as [m0|] eqn:Hc.
  - injection Hcall as <- <-. done.
  - destruct (_ ≫= _) as [id_map|e]; [|done].
    injection Hcall as <- <-. unfold cached. simpl.
    by rewrite bool_decide_false.
Qed.

Lemma get_card_id_map_hit (net : network) (p : process) (m : gmap Z Z) :
  cached p = Some m → get_card_id_map net p = (Ok m, p).
Proof. intros Hc. unfold get_card_id_map. by rewrite Hc. Qed.

(** C8 (amended): for calls made one after the other, each returning
    before the next one starts: once a call has completed with a
    non-empty map, every later call returns that map and requests
    nothing, the process state, with its log of requested URLs, staying
    as that call left it; a call that completes with an empty map leaves
    a cache that tests false, and the next call requests both catalogs
    again, whatever they answer then. A call itself requests the catalogs
    once or not at all. *)
Theorem get_card_id_map_cached (net : network) (p p' : process)
  (m : gmap Z Z) :
  get_card_id_map net p = (Ok m, p') →
  (requested p' = requested p ∨ requested p' = requested p ++ urls) ∧
  (m ≠ ∅ →
   cached p' = Some m ∧
   ∀ nets, calls nets p' = (replicate (length nets) (Ok m), p')) ∧
  (m = ∅ →
   SHARE_ID_TO_ID_MAP p' = Some ∅ ∧
   cached p' = None ∧
   requested p' = requested p ++ urls ∧
   ∀ net', requested (get_card_id_map net' p').2 = requested p' ++ urls).
Proof.
  intros Hcall. split; [|split].
  - unfold get_card_id_map in Hcall. destruct (cached p) as [m0|].
    + injection Hcall as _ <-. by left.
    + destruct (_ ≫= _) as [id_map|e]; [|done].
      injection Hcall as _ <-. by right.
  - intros Hm.
    pose proof (get_card_id_map_keeps_cache net p p' m Hcall Hm) as Hc.
    split; [done|]. intros nets.
    induction nets as [|net' nets IH]; [done|].
    simpl. rewrite (get_card_id_map_hit net' p' m Hc). by rewrite IH.
  - intros ->. unfold get_card_id_map in Hcall.
    destruct (cached p) as [m0|] eqn:Hc.
    + injection Hcall as -> <-. unfold cached in Hc.
      destruct (SHARE_ID_TO_ID_MAP p) as [m1|]; [|done].
      destruct (decide (m1 = ∅)) as [->|Hne].
      * by rewrite bool_decide_true in Hc.
      * rewrite bool_decide_false in Hc by done. by injection Hc as ->.
    + destruct (_ ≫= _) as [id_map|e]; [|done].
      injection Hcall as -> <-.
      assert (Hfalse : cached (Process (Some ∅) (requested p ++ urls)) = None).
      { unfold cached. cbn [SHARE_ID_TO_ID_MAP]. by rewrite bool_decide_true. }
      split; [done|]. split; [done|]. split; [done|].
      intros net'. unfold get_card_id_map. rewrite Hfalse.
      cbn [requested SHARE_ID_TO_ID_MAP].
      by destruct (_ ≫= _).
Qed.

Lemma get_card_id_map_cached_witness :
  let catalog :=
    answers (Body true [Item (Some (Some 1)) (Some 1101)])
            (Body true [Item (Some (Some 211)) (Some 211011)]) in
  let down := answers (Body false []) (Body false []) in
  let m : gmap Z Z := <[211 := 211011]> (<[1 := 1101]> ∅) in
  (get_card_id_map catalog started = (Ok m, Process (Some m) urls) ∧
   calls [unreachable; catalog] (Process (Some m) urls)
   = ([Ok m; Ok m], Process (Some m) urls)) ∧
  (get_card_id_map down started = (Ok ∅, Process (Some ∅) urls) ∧
   cached (Process (Some ∅) urls) = None ∧
   requested (get_card_id_map catalog (Process (Some ∅) urls)).2
   = requested (Process (Some ∅) urls) ++ urls).
Proof.
  intros catalog down m. split.
  - assert (Hcall : get_card_id_map catalog started
                    = (Ok m, Process (Some m) urls))
      by (vm_compute; reflexivity).
    assert (Hm : m ≠ ∅).
    { intros Hm. apply (f_equal (fun x : gmap Z Z => x !! 1)) in Hm.
      vm_compute in Hm. discriminate Hm. }
    split; [exact Hcall|].
    exact (proj2 (proj1 (proj2
             (get_card_id_map_cached catalog started _ m Hcall)) Hm)
             [unreachable; catalog]).
  - assert (Hcall : get_card_id_map down started
                    = (Ok ∅, Process (Some ∅) urls))
      by (vm_compute; reflexivity).
    split; [exact Hcall|].
    destruct (proj2 (proj2
                (get_card_id_map_cached down started _ ∅ Hcall)) eq_refl)
      as (_ & Hfalse & _ & Hagain).
    split; [exact Hfalse|]. exact (Hagain catalog).
Defined.

(** C8 as stated fails: when the first call completes with an empty map
    (here neither catalog indicates success), the cache holds a dict that
    is false, and the second call requests both catalogs again. *)
Lemma empty_map_is_fetched_again :
  let down := answers (Body false []) (Body false []) in
  get_card_id_map down started = (Ok ∅, Process (Some ∅) urls) ∧
  get_card_id_map down (Process (Some ∅) urls)
  = (Ok ∅, Process (Some ∅) (urls ++ urls)) ∧
  calls [down; down] started = ([Ok ∅; Ok ∅], Process (Some ∅) (urls ++ urls)).
Proof. vm_compute. repeat split; reflexivity. Qed.

(** ** The slot classification *)

Lemma keeps_kept (n : nat) (cid : Z) :
  truthy cid && (n <=? String.length (str cid))%nat = bool_decide (kept n cid).
Proof.
  unfold truthy, kept.
  destruct (Z.eqb_spec cid 0) as [H0|H0];
    destruct (Nat.leb_spec n (String.length (str cid))) as [Hn|Hn]; simpl;
    symmetry; first [ apply bool_decide_eq_true | apply bool_decide_eq_false ];
    first [ split; [done|lia] | intros [? ?]; first [done|lia] ].
Qed.

Lemma drops_not_kept (n : nat) (cid : Z) :
  negb (truthy cid) || (String.length (str cid) <? n)%nat
  = negb (bool_decide (kept n cid)).
Proof.
  rewrite <- keeps_kept, negb_andb. f_equal. apply Nat.ltb_antisym.
Qed.

Lemma List_filter_ext_bool {A} (f g : A → bool) (l : list A) :
  (∀ x, f x = g x) → List.filter f l = List.filter g l.
Proof.
  intros Hfg. induction l as [|x l IH]; [done|]. simpl.
  by rewrite Hfg, IH.
Qed.

Lemma List_filter_decide {A} (P : A → Prop) `{∀ x, Decision (P x)}
  (l : list A) :
  List.filter (fun x => bool_decide (P x)) l = filter P l.
Proof.
  induction l as [|x l IH]; [done|]. simpl. rewrite filter_cons, IH.
  by destruct (decide (P x)) as [HP|HP];
    [rewrite bool_decide_true | rewrite bool_decide_false].
Qed.

(** The source's construction in terms of [kept] and [slot]. *)
Lemma card_ids_eq (id_map : gmap Z Z) (share_ids : list Z) :
  let cids := resolved id_map share_ids in
  card_ids id_map share_ids
  = map (slot 4) (take 3 cids)
    ++ map Some (sorted (filter (kept 6) (drop 3 cids)))
    ++ replicate (length (filter (fun cid => ¬ kept 6 cid) (drop 3 cids))) None.
Proof.
  cbn zeta. unfold card_ids. cbn zeta. f_equal; [|f_equal].
  - apply map_ext. intros cid. rewrite keeps_kept. unfold slot.
    by destruct (decide (kept 4 cid)) as [HP|HP];
      [rewrite bool_decide_true | rewrite bool_decide_false].
  - do 2 f_equal. rewrite <- List_filter_decide.
    apply List_filter_ext_bool. intros cid. apply keeps_kept.
  - rewrite <- List_filter_decide.
    rewrite (List_filter_ext_bool _
               (fun cid => bool_decide (¬ kept 6 cid))).
    + induction (List.filter _ _) as [|x l IH]; [done|]. simpl. by rewrite IH.
    + intros cid. rewrite drops_not_kept.
      by destruct (decide (kept 6 cid)) as [HP|HP];
        [rewrite bool_decide_true, bool_decide_false by tauto
        |rewrite bool_decide_false, bool_decide_true by tauto].
Qed.

Lemma length_filter_split {A} (P : A → Prop) `{∀ x, Decision (P x)}
  (l : list A) :
  (length (filter P l) + length (filter (fun x => ¬ P x) l) = length l)%nat.
Proof.
  induction l as [|x l IH]; [done|]. rewrite !filter_cons.
  destruct (decide (P x)) as [HP|HP].
  - rewrite decide_False by tauto. simpl. lia.
  - rewrite decide_True by tauto. simpl. lia.
Qed.

(** Keeping or replacing every entry in place is, up to order, putting the
    kept ones first and the placeholders last. *)
Lemma slots_Permutation (n : nat) (l : list Z) :
  map Some (filter (kept n) l)
    ++ replicate (length (filter (fun cid => ¬ kept n cid) l)) None
  ≡ₚ map (slot n) l.
Proof.
  induction l as [|x l IH]; [done|]. rewrite !filter_cons.
  cbn [map]. unfold slot at 1. destruct (decide (kept n x)) as [HP|HP].
  - rewrite decide_False by tauto. cbn [map app]. by rewrite IH.
  - rewrite decide_True by tauto. cbn [length replicate].
    by rewrite <- Permutation_middle, IH.
Qed.

(** C9: for a sequence of 33 share-IDs, the list handed to the image
    fetches has 33 entries: the 3 main slots, in their original order,
    then the 30 card slots with the valid identifiers sorted in ascending
    order and all placeholders after them. *)
Theorem card_ids_layout (id_map : gmap Z Z) (share_ids : list Z) :
  length share_ids = 33%nat →
  let cids := resolved id_map share_ids in
  let out := card_ids id_map share_ids in
  length out = 33%nat ∧
  take 3 out = map (slot 4) (take 3 cids) ∧
  ∃ (valid : list Z) (k : nat),
    drop 3 out = map Some valid ++ replicate k None ∧
    (length valid + k = 30)%nat ∧
    StronglySorted Z.le valid ∧
    valid ≡ₚ filter (kept 6) (drop 3 cids).
Proof.
  intros Hlen cids out.
  assert (Hcids : length cids = 33%nat) by (unfold cids, resolved; by rewrite length_map).
  assert (Hmain : length (map (slot 4) (take 3 cids)) = 3%nat).
  { rewrite length_map, length_take. lia. }
  assert (Hvalid : (length (sorted (filter (kept 6) (drop 3 cids)))
                    + length (filter (fun cid => ¬ kept 6 cid) (drop 3 cids))
                    = 30)%nat).
  { unfold sorted. rewrite merge_sort_Permutation, length_filter_split.
    rewrite length_drop. lia. }
  unfold out. rewrite (card_ids_eq id_map share_ids). fold cids.
  split; [|split].
  - rewrite !length_app, length_replicate, !length_map.
    rewrite length_map in Hmain. lia.
  - by rewrite take_app_length'.
  - exists (sorted (filter (kept 6) (drop 3 cids))),
      (length (filter (fun cid => ¬ kept 6 cid) (drop 3 cids))).
    split; [by rewrite drop_app_length'|]. split; [done|]. split.
    + apply StronglySorted_merge_sort; apply _.
    + apply merge_sort_Permutation.
Qed.

Example card_ids_sample :
  card_ids sample_map sample_share_ids
  = [Some 1101; Some 1202; None; Some 211011; Some 311002]
    ++ replicate 28 None.
Proof. vm_compute. reflexivity. Qed.

Lemma card_ids_layout_witness :
  let cids := resolved sample_map sample_share_ids in
  let out := card_ids sample_map sample_share_ids in
  length out = 33%nat ∧
  take 3 out = map (slot 4) (take 3 cids) ∧
  ∃ (valid : list Z) (k : nat),
    drop 3 out = map Some valid ++ replicate k None ∧
    (length valid + k = 30)%nat ∧
    StronglySorted Z.le valid ∧
    valid ≡ₚ filter (kept 6) (drop 3 cids).
Proof.
  apply (card_ids_layout sample_map sample_share_ids). reflexivity.
Defined.

(** C10: in the list handed to the image fetches, a main slot (positions
    0..2) holds the resolved identifier when it is true and its decimal
    form has at least 4 characters, and the placeholder [None] otherwise;
    the card slots (positions 3 and up) hold, up to order, the resolved
    identifier when it is true and its decimal form has at least 6
    characters, and [None] otherwise. *)
Theorem slot_classification (id_map : gmap Z Z) (share_ids : list Z) :
  let cids := resolved id_map share_ids in
  let out := card_ids id_map share_ids in
  (∀ (n : nat) (cid : Z),
     (cid ≠ 0 ∧ (n ≤ String.length (str cid))%nat → slot n cid = Some cid) ∧
     (¬ (cid ≠ 0 ∧ (n ≤ String.length (str cid))%nat) → slot n cid = None)) ∧
  (∀ (i : nat) (cid : Z),
     (i < 3)%nat → cids !! i = Some cid → out !! i = Some (slot 4 cid)) ∧
  drop 3 out ≡ₚ map (slot 6) (drop 3 cids).
Proof.
  intros cids out. split; [|split].
  - intros n cid. unfold slot. split; intros Hk.
    + by rewrite decide_True.
    + by rewrite decide_False.
  - intros i cid Hi Hcid. unfold out.
    rewrite (card_ids_eq id_map share_ids). fold cids.
    assert (Hmain : (take 3 cids) !! i = Some cid)
      by (by rewrite lookup_take_lt).
    rewrite lookup_app_l.
    + by rewrite list_lookup_fmap, Hmain.
    + rewrite length_map. by apply lookup_lt_Some in Hmain.
  - unfold out. rewrite (card_ids_eq id_map share_ids). fold cids.
    destruct (decide (3 ≤ length cids)%nat) as [Hlen|Hlen].
    + rewrite drop_app_length'
        by (rewrite length_map, length_take; lia).
      unfold sorted. rewrite merge_sort_Permutation.
      apply slots_Permutation.
    + rewrite (drop_ge cids) by lia. cbn [filter list_filter length replicate map].
      unfold sorted. cbn. rewrite app_nil_r.
      rewrite drop_ge; [done|]. rewrite length_map, length_take. lia.
Qed.

Lemma slot_classification_witness :
  slot 4 1101 = Some 1101 ∧
  slot 4 13 = None ∧
  card_ids sample_map sample_share_ids !! 0%nat = Some (slot 4 1101) ∧
  card_ids sample_map sample_share_ids !! 2%nat = Some (slot 4 13).
Proof.
  destruct (slot_classification sample_map sample_share_ids)
    as (Hslot & Hmain & _).
  split; [apply (Hslot 4%nat 1101); split; [lia | vm_compute; lia] |].
  split; [apply (Hslot 4%nat 13); intros [_ Hlen]; vm_compute in Hlen; lia |].
  split; apply Hmain; first [lia | reflexivity].
Defined.

(** * Further properties of the decoder *)

Ltac lia_mod := zify; Z.div_mod_to_equations; lia.

(** ** How many bytes a token over the alphabet decodes to *)

Lemma quad_step (T : Z) :
  0 ≤ T →
  (T `mod` 4 = 0 ∧ (T + 1) `mod` 4 = 1 ∧ (T + 1) / 4 = T / 4) ∨
  (T `mod` 4 = 1 ∧ (T + 1) `mod` 4 = 2 ∧ (T + 1) / 4 = T / 4) ∨
  (T `mod` 4 = 2 ∧ (T + 1) `mod` 4 = 3 ∧ (T + 1) / 4 = T / 4) ∨
  (T `mod` 4 = 3 ∧ (T + 1) `mod` 4 = 0 ∧ (T + 1) / 4 = T / 4 + 1).
Proof. intros HT. Z.div_mod_to_equations. lia. Qed.

(** Scanning data characters from a state that has read [T] of them: the
    state reached does not depend on what follows, and three bytes are
    written per complete quad. *)
Lemma a2b_scan_data_bytes (data : list ascii) (T leftchar : Z)
  (bin_data : list Z) :
  Forall data_char data →
  0 ≤ T →
  Z.of_nat (length bin_data) = 3 * (T / 4) + emitted (T `mod` 4) →
  ∃ leftchar' bin_data',
    (∀ rest,
       a2b_scan (data ++ rest) (T `mod` 4) leftchar 0 bin_data
       = a2b_scan rest ((T + Z.of_nat (length data)) `mod` 4)
           leftchar' 0 bin_data') ∧
    Z.of_nat (length bin_data')
    = 3 * ((T + Z.of_nat (length data)) / 4)
      + emitted ((T + Z.of_nat (length data)) `mod` 4).
Proof.
  intros Hdata. revert T leftchar bin_data.
  induction Hdata as [|c data [Hpad Htab] _ IH]; intros T leftchar bin_data HT Hlen.
  - exists leftchar, bin_data. cbn [length Z.of_nat app].
    rewrite Z.add_0_r. by split.
  - replace (T + Z.of_nat (length (c :: data)))
      with (T + 1 + Z.of_nat (length data)) by (cbn [length]; lia).
    assert (Hnext : ∀ leftchar1 bin_data1,
      Z.of_nat (length bin_data1)
      = 3 * ((T + 1) / 4) + emitted ((T + 1) `mod` 4) →
      (∀ rest,
         a2b_scan ((c :: data) ++ rest) (T `mod` 4) leftchar 0 bin_data
         = a2b_scan (data ++ rest) ((T + 1) `mod` 4) leftchar1 0 bin_data1) →
      ∃ leftchar' bin_data',
        (∀ rest,
           a2b_scan ((c :: data) ++ rest) (T `mod` 4) leftchar 0 bin_data
           = a2b_scan rest ((T + 1 + Z.of_nat (length data)) `mod` 4)
               leftchar' 0 bin_data') ∧
        Z.of_nat (length bin_data')
        = 3 * ((T + 1 + Z.of_nat (length data)) / 4)
          + emitted ((T + 1 + Z.of_nat (length data)) `mod` 4)).
    { intros leftchar1 bin_data1 Hlen1 Hstep.
      destruct (IH (T + 1) leftchar1 bin_data1 ltac:(lia) Hlen1)
        as (leftchar' & bin_data' & Hscan & Hlen').
      exists leftchar', bin_data'. split; [|done].
      intros rest. by rewrite Hstep, Hscan. }
    destruct (quad_step T HT) as [(Hq & Hq' & Hd)|[(Hq & Hq' & Hd)
      |[(Hq & Hq' & Hd)|(Hq & Hq' & Hd)]]];
      rewrite Hq in Hlen; unfold emitted in Hlen; cbn [Z.eqb Pos.eqb] in Hlen.
    + apply (Hnext (table_a2b_base64 c) bin_data).
      * rewrite Hq', Hd. unfold emitted. cbn. lia.
      * intros rest. cbn [app a2b_scan]. rewrite Hpad. cbn zeta.
        rewrite Htab, Hq, Hq'. done.
    + apply (Hnext (Z.land (table_a2b_base64 c) 15)
               (bin_data ++ [u8 (Z.lor (Z.shiftl leftchar 2)
                                   (Z.shiftr (table_a2b_base64 c) 4))])).
      * rewrite Hq', Hd, length_app. unfold emitted. cbn. lia.
      * intros rest. cbn [app a2b_scan]. rewrite Hpad. cbn zeta.
        rewrite Htab, Hq, Hq'. done.
    + apply (Hnext (Z.land (table_a2b_base64 c) 3)
               (bin_data ++ [u8 (Z.lor (Z.shiftl leftchar 4)
                                   (Z.shiftr (table_a2b_base64 c) 2))])).
      * rewrite Hq', Hd, length_app. unfold emitted. cbn. lia.
      * intros rest. cbn [app a2b_scan]. rewrite Hpad. cbn zeta.
        rewrite Htab, Hq, Hq'. done.
    + apply (Hnext 0
               (bin_data ++ [u8 (Z.lor (Z.shiftl leftchar 6)
                                   (table_a2b_base64 c))])).
      * rewrite Hq', Hd, length_app. unfold emitted. cbn. lia.
      * intros rest. cbn [app a2b_scan]. rewrite Hpad. cbn zeta.
        rewrite Htab, Hq, Hq'. done.
Qed.

Lemma a2b_scan_pads_at_0 (k : nat) (leftchar pads : Z) (bin_data : list Z) :
  a2b_scan (replicate k BASE64_PAD) 0 leftchar pads bin_data
  = Exhausted 0 bin_data.
Proof. induction k as [|k IH]; [done|]. simpl. apply IH. Qed.

Lemma a2b_scan_pads_at_2 (k : nat) (leftchar : Z) (bin_data : list Z) :
  (2 ≤ k)%nat →
  a2b_scan (replicate k BASE64_PAD) 2 leftchar 0 bin_data = Padded bin_data.
Proof. destruct k as [|[|k]]; [lia|lia|]. intros _. reflexivity. Qed.

Lemma a2b_scan_pads_at_3 (k : nat) (leftchar : Z) (bin_data : list Z) :
  (1 ≤ k)%nat →
  a2b_scan (replicate k BASE64_PAD) 3 leftchar 0 bin_data = Padded bin_data.
Proof. destruct k as [|k]; [lia|]. intros _. reflexivity. Qed.

(** What [b64decode] makes of a token over the alphabet once it is padded
    to a multiple of 4, whatever the number of [=] used for that. *)
Lemma b64decode_alphabet (s : string) :
  forallb in_alphabet (list_ascii_of_string s) = true →
  ∃ res : string + list Z,
    (∀ m : nat,
       ((String.length s + m) mod 4 = 0)%nat →
       b64decode (replace "_" "/" (replace "-" "+" s) +:+ str_mul "=" m)
       = res) ∧
    ((String.length s mod 4)%nat ≠ 1%nat →
     ∃ raw, res = inr raw ∧ length raw = (3 * String.length s / 4)%nat) ∧
    ((String.length s mod 4)%nat = 1%nat →
     ∃ n, res = inl (one_extra_character n)).
Proof.
  intros Halpha.
  pose proof (Forall_data_char_translated _ Halpha) as Hdata.
  destruct (a2b_scan_data_bytes _ 0 0 [] Hdata ltac:(lia) eq_refl)
    as (leftchar & bin_data & Hscan & Hlen).
  change (0 `mod` 4) with 0 in Hscan.
  rewrite Z.add_0_l, length_map, length_list_ascii_of_string in Hscan, Hlen.
  assert (Hdecode : ∀ m,
    b64decode (replace "_" "/" (replace "-" "+" s) +:+ str_mul "=" m)
    = match a2b_scan (replicate m BASE64_PAD)
              (Z.of_nat (String.length s) `mod` 4) leftchar 0 bin_data with
      | Padded bin_data => inr bin_data
      | Exhausted quad_pos bin_data =>
          if quad_pos =? 0 then inr bin_data
          else if quad_pos =? 1 then
            inl (one_extra_character
                   (Z.of_nat (length bin_data) / 3 * 4 + 1))
          else inl "Incorrect padding"
      end).
  { intros m. unfold b64decode. cbn zeta.
    rewrite list_ascii_of_string_app, translate_replace, list_ascii_of_str_mul.
    change (replicate m "="%char) with (replicate m BASE64_PAD).
    rewrite forallb_is_ascii_normalized by done.
    unfold a2b_base64. by rewrite Hscan. }
  assert (Hq : Z.of_nat (String.length s) `mod` 4 = 0
             ∨ Z.of_nat (String.length s) `mod` 4 = 1
             ∨ Z.of_nat (String.length s) `mod` 4 = 2
             ∨ Z.of_nat (String.length s) `mod` 4 = 3) by lia_mod.
  destruct Hq as [Hq|[Hq|[Hq|Hq]]]; rewrite Hq in Hlen, Hdecode;
    unfold emitted in Hlen; cbn [Z.eqb Pos.eqb] in Hlen.
  - exists (inr bin_data). split; [|split].
    + intros m _. by rewrite Hdecode, a2b_scan_pads_at_0.
    + intros _. exists bin_data. split; [done|]. lia_mod.
    + intros H1. lia_mod.
  - eexists. split; [|split].
    + intros m _. rewrite Hdecode, a2b_scan_pads_at_1. cbn [Z.eqb Pos.eqb].
      reflexivity.
    + intros H1. lia_mod.
    + intros _. by eexists.
  - exists (inr bin_data). split; [|split].
    + intros m Hm. rewrite Hdecode, a2b_scan_pads_at_2; [done|lia_mod].
    + intros _. exists bin_data. split; [done|]. lia_mod.
    + intros H1. lia_mod.
  - exists (inr bin_data). split; [|split].
    + intros m Hm. rewrite Hdecode, a2b_scan_pads_at_3; [done|lia_mod].
    + intros _. exists bin_data. split; [done|]. lia_mod.
    + intros H1. lia_mod.
Qed.

Lemma b64decode_normalize_alphabet (s : string) :
  forallb in_alphabet (list_ascii_of_string s) = true →
  ((String.length s mod 4)%nat ≠ 1%nat →
   ∃ raw, b64decode (normalize s) = inr raw ∧
          length raw = (3 * String.length s / 4)%nat) ∧
  ((String.length s mod 4)%nat = 1%nat →
   ∃ n, b64decode (normalize s) = inl (one_extra_character n)).
Proof.
  intros Halpha.
  destruct (b64decode_alphabet s Halpha) as (res & Hres & Hok & Hbad).
  destruct (normalize_shape s) as (k & _ & Hk & ->).
  rewrite (Hres k Hk). by split.
Qed.

(** X1: a token made only of characters of the Base64 alphabets is
    decoded to share-IDs exactly when it has 68 characters. *)
Theorem alphabet_token_accepted_iff_68 (s : string) :
  forallb in_alphabet (list_ascii_of_string s) = true →
  (∃ ids, decode_share_ids s = Ok ids) ↔ String.length s = 68%nat.
Proof.
  intros Halpha.
  destruct (b64decode_normalize_alphabet s Halpha) as [Hok Hbad].
  destruct (decide ((String.length s mod 4)%nat = 1%nat)) as [H1|H1].
  - destruct (Hbad H1) as [n Hn]. split.
    + intros [ids Hids]. unfold decode_share_ids in Hids.
      rewrite Hn in Hids. discriminate Hids.
    + intros H68. rewrite H68 in H1. discriminate H1.
  - destruct (Hok H1) as (raw & Hraw & Hlen). split.
    + intros [ids Hids]. rewrite (decode_share_ids_decoded _ _ Hraw) in Hids.
      destruct (decide (length raw = 51%nat)) as [H51|H51].
      * lia_mod.
      * rewrite bool_decide_true in Hids by done. discriminate Hids.
    + intros H68.
      assert (H51 : length raw = 51%nat) by (rewrite Hlen, H68; reflexivity).
      destruct (decode_share_ids_51 s raw Hraw H51) as (w & k & _ & _ & ->).
      by eexists.
Qed.

Lemma alphabet_token_accepted_iff_68_witness :
  (∃ ids, decode_share_ids (str_mul "A" 68) = Ok ids)
  ↔ String.length (str_mul "A" 68) = 68%nat.
Proof. apply (alphabet_token_accepted_iff_68 (str_mul "A" 68)). reflexivity. Defined.

(** X2: a token made only of characters of the Base64 alphabets whose
    length [n] is neither 68 nor 1 modulo 4 fails the length check, and the
    message reports [3 * n / 4] bytes. *)
Theorem alphabet_token_wrong_length (s : string) :
  forallb in_alphabet (list_ascii_of_string s) = true →
  (String.length s mod 4)%nat ≠ 1%nat →
  String.length s ≠ 68%nat →
  decode_share_ids s
  = Raise (ValueError
             (wrong_length +:+ str (Z.of_nat (3 * String.length s / 4)))).
Proof.
  intros Halpha H1 H68.
  destruct (proj1 (b64decode_normalize_alphabet s Halpha) H1)
    as (raw & Hraw & Hlen).
  rewrite (decode_share_ids_decoded _ _ Hraw), bool_decide_true, Hlen; [done|].
  lia_mod.
Qed.

Lemma alphabet_token_wrong_length_witness :
  decode_share_ids (str_mul "A" 70)
  = Raise (ValueError (wrong_length +:+ "52")).
Proof.
  apply (alphabet_token_wrong_length (str_mul "A" 70));
    [reflexivity | vm_compute; discriminate | vm_compute; discriminate].
Defined.

(** ** Tokens that decode alike *)

Lemma replace_append (old new : ascii) (s t : string) :
  replace old new (s +:+ t) = replace old new s +:+ replace old new t.
Proof.
  induction s as [|c s IH]; [done|].
  change (String (if Ascii.eqb c old then new else c) (replace old new (s +:+ t))
          = String (if Ascii.eqb c old then new else c)
              (replace old new s +:+ replace old new t)).
  by rewrite IH.
Qed.

Lemma replace_str_mul_other (old new c : ascii) (n : nat) :
  Ascii.eqb c old = false → replace old new (str_mul c n) = str_mul c n.
Proof.
  intros Hc. induction n as [|n IH]; [done|]. simpl. by rewrite Hc, IH.
Qed.

Lemma append_assoc (s t u : string) : (s +:+ t) +:+ u = s +:+ (t +:+ u).
Proof.
  induction s as [|c s IH]; [done|].
  change (String c ((s +:+ t) +:+ u) = String c (s +:+ (t +:+ u))).
  by rewrite IH.
Qed.

Lemma str_mul_add (c : ascii) (m n : nat) :
  str_mul c m +:+ str_mul c n = str_mul c (m + n).
Proof.
  induction m as [|m IH]; [done|].
  change (String c (str_mul c m +:+ str_mul c n) = String c (str_mul c (m + n))).
  by rewrite IH.
Qed.

(** [decode_share_ids] sees its argument only through [b64decode] of the
    normalized token. *)
Lemma decode_share_ids_ext (s t : string) :
  b64decode (normalize s) = b64decode (normalize t) →
  decode_share_ids s = decode_share_ids t.
Proof. intros Heq. unfold decode_share_ids. by rewrite Heq. Qed.

(** X3: [=] characters written after a token over the alphabet change
    nothing: the token with any number of trailing [=] decodes to what
    the bare token decodes to, a result or an error. *)
Theorem trailing_padding_ignored (s : string) (j : nat) :
  forallb in_alphabet (list_ascii_of_string s) = true →
  decode_share_ids (s +:+ str_mul "=" j) = decode_share_ids s.
Proof.
  intros Halpha. apply decode_share_ids_ext.
  destruct (b64decode_alphabet s Halpha) as (res & Hres & _).
  destruct (normalize_shape s) as (k & _ & Hk & ->).
  destruct (normalize_shape (s +:+ str_mul "=" j)) as (k' & _ & Hk' & ->).
  rewrite length_append, length_str_mul in Hk'.
  rewrite !replace_append, !replace_str_mul_other by done.
  rewrite append_assoc, str_mul_add.
  rewrite (Hres k Hk), (Hres (j + k')%nat); [done|].
  by rewrite Nat.add_assoc.
Qed.

Lemma trailing_padding_ignored_witness :
  decode_share_ids (str_mul "A" 68 +:+ str_mul "=" 2)
  = decode_share_ids (str_mul "A" 68).
Proof.
  apply (trailing_padding_ignored (str_mul "A" 68) 2). reflexivity.
Defined.

Lemma translate_char_idemp (c : ascii) :
  translate_char (translate_char c) = translate_char c.
Proof.
  unfold translate_char.
  destruct (Ascii.eqb c "-") eqn:H1; [done|].
  destruct (Ascii.eqb c "_") eqn:H2; [done|].
  by rewrite H1, H2.
Qed.

Lemma string_of_list_ascii_inj (s t : string) :
  list_ascii_of_string s = list_ascii_of_string t → s = t.
Proof.
  intros Heq.
  by rewrite <- (string_of_list_ascii_of_string s),
       <- (string_of_list_ascii_of_string t), Heq.
Qed.

(** X4: a token and its translation to the standard alphabet ([-] to [+],
    [_] to [/]) decode alike, for every string. *)
Theorem urlsafe_and_standard_decode_alike (s : string) :
  decode_share_ids (replace "_" "/" (replace "-" "+" s)) = decode_share_ids s.
Proof.
  assert (Hidem : replace "_" "/" (replace "-" "+"
                    (replace "_" "/" (replace "-" "+" s)))
                  = replace "_" "/" (replace "-" "+" s)).
  { apply string_of_list_ascii_inj. rewrite !translate_replace, map_map.
    apply map_ext. intros c. apply translate_char_idemp. }
  unfold decode_share_ids, normalize. cbn zeta.
  by rewrite Hidem.
Qed.

(** X5: a token that holds a character outside ASCII fails with the
    decode error, whatever else it holds. *)
Theorem non_ascii_token_rejected (s : string) :
  forallb is_ascii (list_ascii_of_string s) = false →
  decode_share_ids s = Raise (ValueError (decode_failed +:+ not_ascii)).
Proof.
  intros Hs.
  assert (Hnorm : forallb is_ascii (list_ascii_of_string (normalize s)) = false).
  { destruct (normalize_shape s) as (k & _ & _ & ->).
    rewrite list_ascii_of_string_app, translate_replace, forallb_app.
    apply andb_false_iff. left.
    induction (list_ascii_of_string s) as [|c l IH]; [done|].
    simpl in Hs |- *. apply andb_false_iff in Hs as [Hc|Hl].
    - apply andb_false_iff. left.
      revert Hc. clear.
      destruct c as [[] [] [] [] [] [] [] []]; vm_compute; done.
    - apply andb_false_iff. right. by apply IH. }
  unfold decode_share_ids, b64decode. cbn zeta. by rewrite Hnorm.
Qed.

Lemma non_ascii_token_rejected_witness :
  decode_share_ids (str_mul "A" 67 +:+ String (ascii_of_nat 233) "")
  = Raise (ValueError (decode_failed +:+ not_ascii)).
Proof.
  apply (non_ascii_token_rejected
           (str_mul "A" 67 +:+ String (ascii_of_nat 233) "")).
  reflexivity.
Defined.

(** ** The obfuscation key *)

Lemma nth_map_in_range (f : Z → Z) (l : list Z) (i : nat) :
  (i < length l)%nat → nth i (map f l) 0 = f (nth i l 0).
Proof.
  intros Hi. rewrite (nth_indep _ 0 (f 0)) by (by rewrite length_map).
  apply map_nth.
Qed.

Lemma reordered_of_shift (working : list Z) (key k : Z) :
  length working = 50%nat →
  reordered_of (map (fun b => (b + k) `mod` 256) working) ((key + k) `mod` 256)
  = reordered_of working key.
Proof.
  intros Hlen. unfold reordered_of.
  assert (Hbyte : ∀ b, Z.land ((b + k) `mod` 256 - (key + k) `mod` 256) 255
                       = Z.land (b - key) 255).
  { intros b. rewrite !land_255_mod, <- Zminus_mod. f_equal. lia. }
  f_equal; [|f_equal].
  - apply map_ext_in. intros i Hi. apply in_seq in Hi.
    rewrite nth_map_in_range by lia. apply Hbyte.
  - apply map_ext_in. intros i Hi. apply in_seq in Hi.
    rewrite nth_map_in_range by lia. apply Hbyte.
Qed.

(** X6: the key only masks the bytes: adding any [k] modulo 256 to every
    working byte and to the key leaves the decoded share-IDs unchanged. *)
Theorem unpack_key_shift (working : list Z) (key k : Z) :
  length working = 50%nat →
  unpack (map (fun b => (b + k) `mod` 256) working ++ [(key + k) `mod` 256])
  = unpack (working ++ [key]).
Proof.
  intros Hlen.
  rewrite !unpack_ok by (by rewrite ?length_map).
  by rewrite reordered_of_shift.
Qed.

Lemma unpack_key_shift_witness :
  unpack (map (fun b => (b + 235) `mod` 256) (replicate 50 16)
          ++ [(0 + 235) `mod` 256])
  = unpack (replicate 50 16 ++ [0]).
Proof. apply (unpack_key_shift (replicate 50 16) 0 235). reflexivity. Defined.

(** ** What the share-IDs determine *)

Lemma land_shiftl_low (a x k : Z) :
  0 ≤ k → 0 ≤ x < 2 ^ k → Z.land (Z.shiftl a k) x = 0.
Proof.
  intros Hk Hx. apply Z.bits_inj'. intros n Hn.
  rewrite Z.land_spec, Z.bits_0.
  destruct (Z.lt_ge_cases n k) as [Hlt|Hge].
  - by rewrite Z.shiftl_spec_low.
  - destruct (Z.eq_dec x 0) as [->|Hx0]; [by rewrite Z.bits_0, andb_false_r|].
    rewrite (Z.bits_above_log2 x n), andb_false_r; [done|lia|].
    apply Z.log2_lt_pow2; [lia|].
    apply Z.lt_le_trans with (2 ^ k); [lia|].
    apply Z.pow_le_mono_r; lia.
Qed.

Lemma lor_shiftl_low (a x k : Z) :
  0 ≤ k → 0 ≤ x < 2 ^ k → Z.lor (Z.shiftl a k) x = a * 2 ^ k + x.
Proof.
  intros Hk Hx.
  rewrite <- Z.lxor_lor, <- Z.add_nocarry_lxor by (by apply land_shiftl_low).
  by rewrite Z.shiftl_mul_pow2.
Qed.

Lemma n1_arith (b1 b2 : Z) : byte b2 → n1 b1 b2 = 16 * b1 + b2 / 16.
Proof.
  intros H2. unfold byte in H2. unfold n1.
  rewrite Z.shiftr_div_pow2 by lia. rewrite lor_shiftl_low; [|lia|].
  - change (2 ^ 4) with 16. lia.
  - change (2 ^ 4) with 16. lia_mod.
Qed.

Lemma n2_arith (b2 b3 : Z) : byte b3 → n2 b2 b3 = 256 * (b2 `mod` 16) + b3.
Proof.
  intros H3. unfold byte in H3. unfold n2.
  change 15 with (Z.ones 4). rewrite Z.land_ones by lia.
  rewrite lor_shiftl_low; [|lia|].
  - change (2 ^ 4) with 16. change (2 ^ 8) with 256. lia.
  - change (2 ^ 8) with 256. lia.
Qed.

(** A chunk's two values give its three bytes back. *)
Lemma chunk_inj (b1 b2 b3 c1 c2 c3 : Z) :
  byte b1 → byte b2 → byte b3 → byte c1 → byte c2 → byte c3 →
  n1 b1 b2 = n1 c1 c2 → n2 b2 b3 = n2 c2 c3 →
  b1 = c1 ∧ b2 = c2 ∧ b3 = c3.
Proof.
  unfold byte. intros Hb1 Hb2 Hb3 Hc1 Hc2 Hc3.
  rewrite !n1_arith, !n2_arith by done. intros H1 H2. lia_mod.
Qed.

Lemma n1_inj (b1 b2 c1 c2 : Z) :
  byte b1 → byte b2 → byte c1 → byte c2 →
  n1 b1 b2 = n1 c1 c2 → b1 = c1 ∧ b2 / 16 = c2 / 16.
Proof.
  unfold byte. intros Hb1 Hb2 Hc1 Hc2.
  rewrite !n1_arith by done. intros H1. lia_mod.
Qed.

Lemma chunk_values_lookup (reordered : list Z) (n i : nat) :
  (i < n)%nat →
  flat_map (chunk_values reordered) (range n) !! (2 * i)%nat
  = Some (n1 (nth (i * 3) reordered 0) (nth (i * 3 + 1) reordered 0)) ∧
  flat_map (chunk_values reordered) (range n) !! (2 * i + 1)%nat
  = Some (n2 (nth (i * 3 + 1) reordered 0) (nth (i * 3 + 2) reordered 0)).
Proof.
  intros Hi. unfold range.
  assert (Hgen : ∀ m k, (k ≤ i < k + m)%nat →
    flat_map (chunk_values reordered) (seq k m) !! (2 * (i - k))%nat
    = Some (n1 (nth (i * 3) reordered 0) (nth (i * 3 + 1) reordered 0)) ∧
    flat_map (chunk_values reordered) (seq k m) !! (2 * (i - k) + 1)%nat
    = Some (n2 (nth (i * 3 + 1) reordered 0) (nth (i * 3 + 2) reordered 0))).
  { induction m as [|m IH]; intros k Hk; [lia|].
    cbn [seq flat_map].
    destruct (decide (i = k)) as [->|Hne].
    - replace (k - k)%nat with 0%nat by lia. done.
    - destruct (IH (S k)) as [IH1 IH2]; [lia|].
      replace (2 * (i - k))%nat with (2 + 2 * (i - S k))%nat by lia.
      replace (2 + 2 * (i - S k) + 1)%nat with (2 + (2 * (i - S k) + 1))%nat
        by lia.
      unfold chunk_values at 1 3. cbn [app lookup list_lookup].
      done. }
  destruct (Hgen n 0%nat) as [H1 H2]; [lia|].
  by rewrite Nat.sub_0_r in H1, H2.
Qed.

(** The 33 values say what bytes 0..48 of the buffer are and what the
    high half of byte 49 is, and nothing else. *)
Lemma values_agree_iff (r r' : list Z) :
  Forall byte r → Forall byte r' →
  take 33 (flat_map (chunk_values r) (range 17))
  = take 33 (flat_map (chunk_values r') (range 17))
  ↔ (∀ j, (j < 49)%nat → nth j r 0 = nth j r' 0) ∧
    nth 49 r 0 / 16 = nth 49 r' 0 / 16.
Proof.
  intros Hr Hr'.
  assert (Hb : ∀ j, byte (nth j r 0)) by (intros j; by apply nth_byte).
  assert (Hb' : ∀ j, byte (nth j r' 0)) by (intros j; by apply nth_byte).
  split.
  - intros Heq.
    assert (Hv : ∀ j, (j < 33)%nat →
      flat_map (chunk_values r) (range 17) !! j
      = flat_map (chunk_values r') (range 17) !! j).
    { intros j Hj.
      rewrite <- (lookup_take_lt (flat_map (chunk_values r) _) 33 j) by done.
      rewrite <- (lookup_take_lt (flat_map (chunk_values r') _) 33 j) by done.
      by rewrite Heq. }
    assert (Hchunk : ∀ i, (i ≤ 15)%nat →
      nth (i * 3) r 0 = nth (i * 3) r' 0 ∧
      nth (i * 3 + 1) r 0 = nth (i * 3 + 1) r' 0 ∧
      nth (i * 3 + 2) r 0 = nth (i * 3 + 2) r' 0).
    { intros i Hi.
      destruct (chunk_values_lookup r 17 i) as [H1 H2]; [lia|].
      destruct (chunk_values_lookup r' 17 i) as [H1' H2']; [lia|].
      rewrite Hv, H1' in H1 by lia. rewrite Hv, H2' in H2 by lia.
      injection H1 as H1. injection H2 as H2.
      symmetry in H1, H2. by apply chunk_inj. }
    destruct (chunk_values_lookup r 17 16) as [H1 _]; [lia|].
    destruct (chunk_values_lookup r' 17 16) as [H1' _]; [lia|].
    rewrite Hv, H1' in H1 by lia. injection H1 as H1. symmetry in H1.
    apply n1_inj in H1 as [H48 H49]; [|done..].
    split; [|done].
    intros j Hj. destruct (decide (j = 48%nat)) as [->|Hne]; [done|].
    assert (Hdec : ∃ i c, (j = i * 3 + c ∧ c < 3 ∧ i ≤ 15)%nat).
    { exists (j / 3)%nat, (j mod 3)%nat. lia_mod. }
    destruct Hdec as (i & c & -> & Hc & Hi).
    destruct (Hchunk i Hi) as (H0 & H1 & H2).
    destruct c as [|[|[|c]]]; [by rewrite Nat.add_0_r|done|done|lia].
  - intros [Hlow Hhigh]. apply list_eq. intros j.
    destruct (decide (j < 33)%nat) as [Hj|Hj].
    2:{ by rewrite !lookup_take_ge by lia. }
    rewrite !lookup_take_lt by done.
    assert (Hdec : ∃ i, (i ≤ 16 ∧ (j = 2 * i ∨ (j = 2 * i + 1 ∧ i ≤ 15)))%nat).
    { exists (j / 2)%nat. lia_mod. }
    destruct Hdec as (i & Hi & [->|[-> Hi']]).
    + destruct (chunk_values_lookup r 17 i) as [-> _]; [lia|].
      destruct (chunk_values_lookup r' 17 i) as [-> _]; [lia|].
      f_equal. destruct (decide (i = 16%nat)) as [->|Hne].
      * unfold n1. rewrite !Z.shiftr_div_pow2 by lia.
        change (2 ^ 4) with 16. cbn [Nat.mul Nat.add].
        by rewrite (Hlow 48%nat), Hhigh by lia.
      * by rewrite (Hlow (i * 3)%nat), (Hlow (i * 3 + 1)%nat) by lia.
    + destruct (chunk_values_lookup r 17 i) as [_ ->]; [lia|].
      destruct (chunk_values_lookup r' 17 i) as [_ ->]; [lia|].
      f_equal.
      by rewrite (Hlow (i * 3 + 1)%nat), (Hlow (i * 3 + 2)%nat) by lia.
Qed.

Lemma reordered_of_nth (working : list Z) (key : Z) (i : nat) :
  (i < 25)%nat →
  nth i (reordered_of working key) 0
  = (nth (2 * i) working 0 - key) `mod` 256 ∧
  nth (25 + i) (reordered_of working key) 0
  = (nth (2 * i + 1) working 0 - key) `mod` 256.
Proof.
  intros Hi. destruct (reordered_of_lookup working key i Hi) as [H0 H1].
  split; by apply nth_lookup_Some.
Qed.

Lemma unmask_inj (w w' key : Z) :
  byte w → byte w' → (w - key) `mod` 256 = (w' - key) `mod` 256 → w = w'.
Proof. unfold byte. intros Hw Hw' Heq. lia_mod. Qed.

(** X7: under one key, two buffers of 50 working bytes decode to the same
    share-IDs exactly when they agree on bytes 0..48 and on the high half
    of byte 49 once unmasked: the share-IDs determine the token up to the
    key and those last four bits, which never reach the output. *)
Theorem unpack_eq_iff (working working' : list Z) (key : Z) :
  length working = 50%nat → length working' = 50%nat →
  Forall byte working → Forall byte working' →
  unpack (working ++ [key]) = unpack (working' ++ [key])
  ↔ take 49 working = take 49 working' ∧
    ((nth 49 working 0 - key) `mod` 256) / 16
    = ((nth 49 working' 0 - key) `mod` 256) / 16.
Proof.
  intros Hlen Hlen' Hw Hw'.
  rewrite !unpack_ok by done.
  assert (Hinj : ∀ A (x y : A), Ok x = Ok y ↔ x = y).
  { intros A x y. split; [by intros [= ->]|by intros ->]. }
  rewrite Hinj, values_agree_iff by apply reordered_of_bytes.
  destruct (reordered_of_nth working key 24) as [_ H49]; [lia|].
  destruct (reordered_of_nth working' key 24) as [_ H49']; [lia|].
  cbn [Nat.add Nat.mul] in H49, H49'. rewrite H49, H49'.
  apply and_iff_compat_r.
  assert (Hnth : ∀ (l : list Z) j, nth j (take 49 l) 0
                  = if decide (j < 49)%nat then nth j l 0 else 0).
  { intros l j. rewrite !nth_lookup. destruct (decide (j < 49)%nat).
    - by rewrite lookup_take_lt.
    - by rewrite lookup_take_ge by lia. }
  split.
  - intros Hr. apply (nth_ext _ _ 0 0); [by rewrite !length_take, Hlen, Hlen'|].
    intros j Hj. rewrite length_take in Hj. rewrite !Hnth.
    destruct (decide (j < 49)%nat) as [Hj'|]; [|done].
    assert (Hb : byte (nth j working 0)) by (by apply nth_byte).
    assert (Hb' : byte (nth j working' 0)) by (by apply nth_byte).
    apply (unmask_inj _ _ key Hb Hb').
    assert (Hdec : ∃ i, (i < 25 ∧ (j = 2 * i ∨ (j = 2 * i + 1 ∧ i < 24)))%nat).
    { exists (j / 2)%nat. lia_mod. }
    destruct Hdec as (i & Hi & [->|[-> Hi']]).
    + destruct (reordered_of_nth working key i Hi) as [<- _].
      destruct (reordered_of_nth working' key i Hi) as [<- _].
      apply Hr. lia.
    + destruct (reordered_of_nth working key i Hi) as [_ <-].
      destruct (reordered_of_nth working' key i Hi) as [_ <-].
      apply Hr. lia.
  - intros Htake j Hj.
    assert (Hw49 : ∀ i, (i < 49)%nat → nth i working 0 = nth i working' 0).
    { intros i Hi. pose proof (Hnth working i) as H1.
      pose proof (Hnth working' i) as H2.
      rewrite decide_True in H1, H2 by done. by rewrite <- H1, <- H2, Htake. }
    destruct (decide (j < 25)%nat) as [Hlt|Hge].
    + destruct (reordered_of_nth working key j Hlt) as [-> _].
      destruct (reordered_of_nth working' key j Hlt) as [-> _].
      by rewrite Hw49 by lia.
    + replace j with (25 + (j - 25))%nat by lia.
      destruct (reordered_of_nth working key (j - 25)) as [_ ->]; [lia|].
      destruct (reordered_of_nth working' key (j - 25)) as [_ ->]; [lia|].
      by rewrite Hw49 by lia.
Qed.

Lemma unpack_eq_iff_witness :
  unpack ((replicate 49 16 ++ [35]) ++ [0])
  = unpack ((replicate 49 16 ++ [44]) ++ [0]).
Proof.
  apply (unpack_eq_iff (replicate 49 16 ++ [35]) (replicate 49 16 ++ [44]) 0).
  - reflexivity.
  - reflexivity.
  - apply Forall_app_2; [apply Forall_replicate|]; repeat constructor;
      unfold byte; lia.
  - apply Forall_app_2; [apply Forall_replicate|]; repeat constructor;
      unfold byte; lia.
  - split; reflexivity.
Defined.

(** * Further properties of the catalog map *)

Lemma add_item_lookup (id_map : gmap Z Z) (it : item) (k : Z) :
  k ≠ 0 →
  add_item id_map it !! k
  = match entry_for k it with
    | Some v => Some v
    | None => id_map !! k
    end.
Proof.
  intros Hk. unfold add_item, entry_for.
  destruct (item_shareId it) as [[sid|]|], (item_id it) as [v|]; try done.
  destruct (Z.eqb_spec sid 0) as [->|Hsid].
  - by rewrite bool_decide_false.
  - destruct (decide (sid = k)) as [->|Hne].
    + by rewrite bool_decide_true, lookup_insert_eq.
    + by rewrite bool_decide_false, lookup_insert_ne.
Qed.

Lemma add_item_lookup_0 (id_map : gmap Z Z) (it : item) :
  add_item id_map it !! 0 = id_map !! 0.
Proof.
  unfold add_item.
  destruct (item_shareId it) as [[sid|]|], (item_id it) as [v|]; try done.
  destruct (Z.eqb_spec sid 0) as [->|Hsid]; [done|].
  by rewrite lookup_insert_ne.
Qed.

Lemma foldl_add_item_lookup (items : list item) (id_map : gmap Z Z) (k : Z) :
  k ≠ 0 →
  foldl add_item id_map items !! k
  = match latest k items with
    | Some v => Some v
    | None => id_map !! k
    end.
Proof.
  intros Hk. induction items as [|it items IH] using rev_ind; [done|].
  rewrite foldl_app. cbn [foldl]. rewrite add_item_lookup by done.
  unfold latest in *. rewrite omap_app. cbn [omap list_omap].
  destruct (entry_for k it) as [v|].
  - by rewrite last_snoc.
  - by rewrite app_nil_r.
Qed.

Lemma foldl_add_item_lookup_0 (items : list item) (id_map : gmap Z Z) :
  foldl add_item id_map items !! 0 = id_map !! 0.
Proof.
  revert id_map. induction items as [|it items IH]; intros id_map; [done|].
  cbn [foldl]. by rewrite IH, add_item_lookup_0.
Qed.

Lemma contribution_entries (data : body) (id_map : gmap Z Z) :
  contribution data id_map = foldl add_item id_map (entries data).
Proof. unfold contribution, entries. by destruct (body_success data). Qed.

(** X8: when both catalogs answer 200 with a body that parses, the map
    built gives a non-zero share-ID the identifier of the last entry that
    carries this share-ID and an identifier, the entries being those of
    the bodies that indicate success, characters before action cards; a
    share-ID with no such entry, and the share-ID 0, are not in the map. *)
Theorem get_card_id_map_lookup (net : network) (p : process)
  (data1 data2 : body) :
  cached p = None →
  net characters_url = Ok (Response 200 (Ok data1)) →
  net action_cards_url = Ok (Response 200 (Ok data2)) →
  ∃ id_map p',
    get_card_id_map net p = (Ok id_map, p') ∧
    id_map !! 0 = None ∧
    ∀ k, k ≠ 0 → id_map !! k = latest k (entries data1 ++ entries data2).
Proof.
  intros Hcache H1 H2. unfold get_card_id_map. rewrite Hcache.
  unfold urls. cbn [map gather]. rewrite H1, H2.
  cbn [mbind result_bind collect status json].
  cbn [Z.eqb Pos.eqb mbind result_bind].
  assert (Hmap : (if body_success data1
                  then if body_success data2
                       then Ok (foldl add_item (foldl add_item ∅ (body_data data1))
                                  (body_data data2))
                       else Ok (foldl add_item ∅ (body_data data1))
                  else if body_success data2
                       then Ok (foldl add_item ∅ (body_data data2))
                       else Ok ∅)
                 = Ok (foldl add_item ∅ (entries data1 ++ entries data2))).
  { unfold entries. destruct (body_success data1), (body_success data2);
      by rewrite ?foldl_app, ?app_nil_r. }
  rewrite Hmap. eexists _, _. split; [done|]. split.
  - by rewrite foldl_add_item_lookup_0.
  - intros k Hk. rewrite foldl_add_item_lookup by done.
    by destruct (latest k _).
Qed.

Lemma get_card_id_map_lookup_witness :
  ∃ id_map p',
    get_card_id_map
      (answers (Body true [Item (Some (Some 7)) (Some 1101);
                           Item (Some (Some 7)) (Some 1102);
                           Item (Some None) (Some 1103)])
               (Body true [Item (Some (Some 9)) None;
                           Item (Some (Some 0)) (Some 2)]))
      started
    = (Ok id_map, p') ∧
    id_map !! 0 = None ∧
    ∀ k, k ≠ 0 →
      id_map !! k
      = latest k
          (entries (Body true [Item (Some (Some 7)) (Some 1101);
                               Item (Some (Some 7)) (Some 1102);
                               Item (Some None) (Some 1103)])
           ++ entries (Body true [Item (Some (Some 9)) None;
                                  Item (Some (Some 0)) (Some 2)])).
Proof. apply (get_card_id_map_lookup _ started); reflexivity. Defined.

Lemma collect_lookup_0 (responses : list response) (id_map id_map' : gmap Z Z) :
  collect responses id_map = Ok id_map' → id_map' !! 0 = id_map !! 0.
Proof.
  revert id_map. induction responses as [|resp rest IH]; intros id_map Hc.
  - by injection Hc as <-.
  - cbn [collect] in Hc. destruct (status resp =? 200).
    + destruct (json resp) as [data|e]; [|done]. cbn [mbind result_bind] in Hc.
      destruct (body_success data).
      * by rewrite (IH _ Hc), foldl_add_item_lookup_0.
      * by apply IH.
    + destruct (raise_for_status resp); [|done]. by apply IH.
Qed.

Lemma cached_Some (p : process) (m : gmap Z Z) :
  cached p = Some m → SHARE_ID_TO_ID_MAP p = Some m.
Proof.
  unfold cached. destruct (SHARE_ID_TO_ID_MAP p) as [m'|]; [|done].
  by destruct (bool_decide (m' = ∅)); [|intros [= ->]].
Qed.

Lemma get_card_id_map_cache_ok (net : network) (p p' : process)
  (r : result (gmap Z Z)) :
  cache_ok p →
  get_card_id_map net p = (r, p') →
  cache_ok p' ∧ ∀ m, r = Ok m → m !! 0 = None ∧ SHARE_ID_TO_ID_MAP p' = Some m.
Proof.
  intros Hok Hcall. unfold get_card_id_map in Hcall.
  destruct (cached p) as [m0|] eqn:Hc.
  - injection Hcall as <- <-. split; [done|]. intros m [= <-].
    apply cached_Some in Hc. split; [by apply Hok|done].
  - destruct (gather (map net urls)) as [responses|e];
      cbn [mbind result_bind] in Hcall.
    + destruct (collect responses ∅) as [id_map|e] eqn:Hcol.
      * injection Hcall as <- <-.
        apply collect_lookup_0 in Hcol. rewrite lookup_empty in Hcol.
        split; [by intros m [= <-]|]. by intros m [= <-].
      * injection Hcall as <- <-. split; [done|]. by intros m.
    + injection Hcall as <- <-. split; [done|]. by intros m.
Qed.

(** X9: in a process started with an empty cache, whatever the catalogs
    answer and however many calls are made, no map that [get_card_id_map]
    returns or caches has the share-ID 0 as a key. *)
Theorem calls_never_map_0 (nets : list network) :
  Forall (fun r => ∀ m, r = Ok m → m !! 0 = None) (calls nets started).1 ∧
  cache_ok (calls nets started).2.
Proof.
  assert (Hgen : ∀ p, cache_ok p →
    Forall (fun r => ∀ m, r = Ok m → m !! 0 = None) (calls nets p).1 ∧
    cache_ok (calls nets p).2).
  { induction nets as [|net nets IH]; intros p Hok; [by split|].
    cbn [calls]. destruct (get_card_id_map net p) as [r p1] eqn:Hcall.
    destruct (get_card_id_map_cache_ok net p p1 r Hok Hcall) as [Hok1 Hr].
    destruct (IH p1 Hok1) as [Hrs Hok2].
    destruct (calls nets p1) as [rs p2]. cbn [fst snd] in *.
    split; [|done]. constructor; [|done]. intros m Hm. by apply Hr. }
  apply Hgen. by intros m.
Qed.

(** ** The catalog map, the token and the slots together *)

Lemma Ok_inj {A} (x y : A) : Ok x = Ok y → x = y.
Proof. by intros [= ->]. Qed.

Lemma decode_share_ids_Ok_inv (s : string) (ids : list Z) :
  decode_share_ids s = Ok ids →
  length ids = 33%nat ∧ Forall (fun n => 0 ≤ n ≤ 4095) ids.
Proof.
  intros Hids. unfold decode_share_ids in Hids.
  destruct (b64decode (normalize s)) as [e|raw] eqn:Hraw; [done|].
  destruct (decide (length raw = 51%nat)) as [Hlen|Hlen].
  2:{ by rewrite bool_decide_true in Hids. }
  destruct (decode_share_ids_51 s raw Hraw Hlen) as (w & k & _ & _ & Hdec).
  unfold decode_share_ids in Hdec. rewrite Hraw in Hdec.
  rewrite Hdec in Hids. apply Ok_inj in Hids. subst ids. split.
  - by rewrite length_take, length_flat_map_chunks.
  - apply Forall_take, chunk_values_range, reordered_of_bytes.
Qed.

Lemma resolved_lookup (id_map : gmap Z Z) (share_ids : list Z) (cid : Z) :
  cid ∈ resolved id_map share_ids → cid ≠ 0 →
  ∃ sid, sid ∈ share_ids ∧ id_map !! sid = Some cid.
Proof.
  intros Hin Hne. unfold resolved in Hin.
  apply list_elem_of_In, in_map_iff in Hin as (sid & Hsid & Hin).
  exists sid. split; [by apply list_elem_of_In|].
  destruct (id_map !! sid) as [v|]; simpl in Hsid; [by subst|done].
Qed.

(** X10: whatever [generate_deck_image] hands to the image fetches is a
    list of 33 entries; every entry that is not the placeholder is a
    non-zero identifier that the catalog map, now cached, gives to one of
    the share-IDs decoded from the token, that share-ID being between 1
    and 4095; and it has at least 4 characters in a main slot, at least 6
    in a card slot. *)
Theorem generate_deck_image_ids_sound (net : network) (p p' : process)
  (s : string) (out : list (option Z)) :
  cache_ok p →
  generate_deck_image_ids net p s = (Ok out, p') →
  length out = 33%nat ∧
  ∃ id_map share_ids,
    SHARE_ID_TO_ID_MAP p' = Some id_map ∧
    decode_share_ids s = Ok share_ids ∧
    ∀ (i : nat) (cid : Z),
      out !! i = Some (Some cid) →
      cid ≠ 0 ∧
      ((if decide (i < 3)%nat then 4 else 6) ≤ String.length (str cid))%nat ∧
      ∃ sid, sid ∈ share_ids ∧ 1 ≤ sid ≤ 4095 ∧ id_map !! sid = Some cid.
Proof.
  intros Hok Hgen. unfold generate_deck_image_ids in Hgen.
  destruct (get_card_id_map net p) as [r p1] eqn:Hcall.
  destruct (get_card_id_map_cache_ok net p p1 r Hok Hcall) as [_ Hr].
  destruct r as [id_map|e]; [|done]. cbn [mbind result_bind] in Hgen.
  destruct (decode_share_ids s) as [share_ids|e] eqn:Hdec; [|done].
  cbn [mbind result_bind] in Hgen. injection Hgen as <- <-.
  destruct (Hr id_map eq_refl) as [H0 Hcache].
  destruct (decode_share_ids_Ok_inv s share_ids Hdec) as [Hlen Hrange].
  set (cids := resolved id_map share_ids).
  assert (Hcids : length cids = 33%nat)
    by (unfold cids, resolved; by rewrite length_map).
  assert (Hfrom : ∀ cid, cid ∈ cids → cid ≠ 0 →
            ∃ sid, sid ∈ share_ids ∧ 1 ≤ sid ≤ 4095 ∧ id_map !! sid = Some cid).
  { intros cid Hin Hne.
    destruct (resolved_lookup id_map share_ids cid Hin Hne) as (sid & Hsid & Hm).
    exists sid. split; [done|]. split; [|done].
    rewrite Forall_forall in Hrange. pose proof (Hrange sid Hsid).
    assert (sid ≠ 0) by (intros ->; congruence). lia. }
  rewrite (card_ids_eq id_map share_ids). fold cids.
  assert (Hmain : length (map (slot 4) (take 3 cids)) = 3%nat)
    by (rewrite length_map, length_take; lia).
  split.
  - rewrite !length_app, length_replicate, !length_map, length_take.
    unfold sorted. rewrite merge_sort_Permutation.
    pose proof (length_filter_split (kept 6) (drop 3 cids)) as Hsplit.
    rewrite length_drop in Hsplit. lia.
  - exists id_map, share_ids. split; [done|]. split; [done|].
    intros i cid Hi. destruct (decide (i < 3)%nat) as [Hlt|Hge].
    + rewrite lookup_app_l in Hi by lia.
      rewrite list_lookup_fmap in Hi.
      destruct (take 3 cids !! i) as [c|] eqn:Hc; [|done].
      cbn in Hi. injection Hi as Hi. unfold slot in Hi.
      destruct (decide (kept 4 c)) as [[Hne Hlen4]|]; [|done].
      injection Hi as ->. split; [done|]. split; [done|].
      apply Hfrom; [|done].
      apply list_elem_of_lookup_2 in Hc.
      by apply (subseteq_take 3 cids).
    + rewrite lookup_app_r in Hi by lia.
      apply list_elem_of_lookup_2, elem_of_app in Hi as [Hi|Hi].
      * apply list_elem_of_fmap in Hi as (c & [= <-] & Hin).
        unfold sorted in Hin. rewrite merge_sort_Permutation in Hin.
        apply list_elem_of_filter in Hin as [[Hne Hlen6] Hin].
        split; [done|]. split; [done|].
        apply Hfrom; [|done]. by apply (subseteq_drop 3 cids).
      * by apply elem_of_replicate in Hi as [? _].
Qed.

Lemma generate_deck_image_ids_sound_witness :
  let out := [Some 1503; Some 1101; Some 1503]
             ++ replicate 8 (Some 212011) ++ replicate 8 (Some 333001)
             ++ replicate 14 None in
  let p' := (generate_deck_image_ids sample_catalog started golden_token).2 in
  length out = 33%nat ∧
  ∃ id_map share_ids,
    SHARE_ID_TO_ID_MAP p' = Some id_map ∧
    decode_share_ids golden_token = Ok share_ids ∧
    ∀ (i : nat) (cid : Z),
      out !! i = Some (Some cid) →
      cid ≠ 0 ∧
      ((if decide (i < 3)%nat then 4 else 6) ≤ String.length (str cid))%nat ∧
      ∃ sid, sid ∈ share_ids ∧ 1 ≤ sid ≤ 4095 ∧ id_map !! sid = Some cid.
Proof.
  intros out p'.
  apply (generate_deck_image_ids_sound sample_catalog started p' golden_token out).
  - intros m Hm. discriminate Hm.
  - vm_compute. reflexivity.
Defined.

(** X11: the catalog map is obtained before the token is looked at. With
    nothing cached, a token that [decode_share_ids] rejects still has both
    catalogs requested; when the catalogs give a map it is cached and the
    error raised is the token's, and when they fail the error raised is
    theirs. *)
Theorem bad_token_still_fetches (net : network) (p : process) (s : string)
  (e : exn) :
  cached p = None →
  decode_share_ids s = Raise e →
  ∃ e' p',
    generate_deck_image_ids net p s = (Raise e', p') ∧
    requested p' = requested p ++ urls ∧
    match (get_card_id_map net p).1 with
    | Ok id_map => e' = e ∧ SHARE_ID_TO_ID_MAP p' = Some id_map
    | Raise e0 => e' = e0 ∧ SHARE_ID_TO_ID_MAP p' = SHARE_ID_TO_ID_MAP p
    end.
Proof.
  intros Hcache Hdec. unfold generate_deck_image_ids, get_card_id_map.
  rewrite Hcache.
  destruct (_ ≫= _) as [id_map|e0]; cbn [mbind result_bind fst].
  - rewrite Hdec. cbn [mbind result_bind]. by eexists _, _.
  - by eexists _, _.
Qed.

Lemma bad_token_still_fetches_witness :
  ∃ e' p',
    generate_deck_image_ids sample_catalog started "AAAA" = (Raise e', p') ∧
    requested p' = requested started ++ urls ∧
    match (get_card_id_map sample_catalog started).1 with
    | Ok id_map =>
        e' = ValueError (wrong_length +:+ "3") ∧
        SHARE_ID_TO_ID_MAP p' = Some id_map
    | Raise e0 =>
        e' = e0 ∧ SHARE_ID_TO_ID_MAP p' = SHARE_ID_TO_ID_MAP started
    end.
Proof.
  apply (bad_token_still_fetches sample_catalog started "AAAA"); reflexivity.
Defined.

(** * Properties of the image cache *)

(** ** The decimal form of an identifier *)

Lemma strip_no_space (s : string) : no_space s → strip s = s.
Proof.
  unfold no_space, strip. intros Hs.
  assert (Hl : lstrip s = s).
  { destruct s as [|c s]; [done|]. simpl in Hs |- *.
    apply Forall_cons in Hs as [-> _]. done. }
  rewrite Hl. clear Hl.
  induction s as [|c s IH]; [done|]. simpl in Hs |- *.
  apply Forall_cons in Hs as [Hc Hs]. rewrite (IH Hs), Hc.
  by destruct s.
Qed.

Lemma pretty_N_char_no_space (x : N) : is_space (pretty_N_char x) = false.
Proof. unfold pretty_N_char. by repeat case_match. Qed.

Lemma pretty_N_go_no_space (x : N) (s : string) :
  no_space s → no_space (pretty_N_go x s).
Proof.
  revert s. induction (N.lt_wf_0 x) as [x _ IH]. intros s Hs.
  destruct (decide (x = 0)%N) as [->|Hx]; [by rewrite pretty_N_go_0|].
  rewrite pretty_N_go_step by lia. apply IH.
  - apply N.div_lt; lia.
  - unfold no_space. simpl. constructor; [|done].
    apply pretty_N_char_no_space.
Qed.

Lemma pretty_N_go_nonempty (x : N) (s : string) :
  s ≠ "" → pretty_N_go x s ≠ "".
Proof.
  revert s. induction (N.lt_wf_0 x) as [x _ IH]. intros s Hs.
  destruct (decide (x = 0)%N) as [->|Hx]; [by rewrite pretty_N_go_0|].
  rewrite pretty_N_go_step by lia. apply IH; [|done].
  apply N.div_lt; lia.
Qed.

Lemma pretty_positive_facts (x : positive) :
  no_space (pretty x) ∧ pretty x ≠ "".
Proof.
  unfold pretty, pretty_positive, pretty, pretty_N.
  rewrite decide_False by done. split.
  - apply pretty_N_go_no_space. constructor.
  - rewrite pretty_N_go_step by lia. by apply pretty_N_go_nonempty.
Qed.

Lemma str_no_space (n : Z) : no_space (str n).
Proof.
  unfold str, pretty, pretty_Z. destruct n as [|x|x].
  - by repeat constructor.
  - apply pretty_positive_facts.
  - unfold no_space. rewrite list_ascii_of_string_app.
    apply Forall_app_2; [by repeat constructor|].
    apply pretty_positive_facts.
Qed.

Lemma str_nonempty (n : Z) : str n ≠ "".
Proof.
  unfold str, pretty, pretty_Z. destruct n as [|x|x]; [done| |done].
  apply pretty_positive_facts.
Qed.

Lemma str_inj (m n : Z) : str m = str n → m = n.
Proof. apply pretty_Z_inj. Qed.

(** X12: the test at the head of [fetch_image] holds exactly for [None]
    and for 0: its third part, on the stripped decimal form, never adds an
    identifier. *)
Theorem blank_iff (card_id : option Z) :
  blank card_id = true ↔ card_id = None ∨ card_id = Some 0.
Proof.
  destruct card_id as [n|]; [|by split; [left|]].
  unfold blank, truthy. cbn zeta. rewrite strip_no_space by apply str_no_space.
  split.
  - intros Hb. right. f_equal.
    destruct (decide (n = 0)) as [H0|Hn]; [done|].
    rewrite (proj2 (Z.eqb_neq n 0) Hn) in Hb. simpl in Hb.
    apply orb_true_iff in Hb as [Hb|Hb].
    + apply String.eqb_eq in Hb. by destruct (str_nonempty n).
    + apply String.eqb_eq in Hb. by apply str_inj.
  - intros [?|[= ->]]; [done|]. reflexivity.
Qed.

Lemma blank_nonzero (n : Z) : n ≠ 0 → blank (Some n) = false.
Proof.
  intros Hn. unfold blank, truthy. cbn zeta.
  rewrite strip_no_space by apply str_no_space.
  rewrite (proj2 (Z.eqb_neq n 0) Hn). simpl.
  apply orb_false_iff. split; apply String.eqb_neq.
  - apply str_nonempty.
  - intros H0. by apply Hn, str_inj.
Qed.

Lemma append_inj_l (s t u : string) : s +:+ t = s +:+ u → t = u.
Proof.
  induction s as [|c s IH]; [done|]. intros Heq.
  change (String c (s +:+ t) = String c (s +:+ u)) in Heq.
  injection Heq as Heq. by apply IH.
Qed.

Lemma append_inj_r (s t u : string) : s +:+ u = t +:+ u → s = t.
Proof.
  intros Heq. apply string_of_list_ascii_inj.
  apply (f_equal list_ascii_of_string) in Heq.
  rewrite !list_ascii_of_string_app in Heq.
  by apply app_inv_tail in Heq.
Qed.

(** X13: two identifiers have the same cache file only when they are the
    same identifier. *)
Theorem cache_path_inj (m n : Z) : cache_path m = cache_path n → m = n.
Proof.
  unfold cache_path. intros Heq.
  do 2 apply append_inj_l in Heq. apply append_inj_r in Heq.
  by apply str_inj.
Qed.

Lemma cache_path_inj_witness : 1101 = 1100 + 1.
Proof. apply (cache_path_inj 1101 (1100 + 1)). reflexivity. Defined.

(** ** Fetching an image *)

Section fetch_image_properties.

Context {Image : Type}.
Variable Image_open : list Z → result Image.

Lemma fetch_image_begin_blank (card_id : option Z) (fallback : Image)
  (st : store) :
  blank card_id = true →
  fetch_image_begin Image_open card_id fallback st
  = (Finished (Ok fallback), st).
Proof. intros Hb. unfold fetch_image_begin. by rewrite Hb. Qed.

Lemma fetch_image_begin_hit (n : Z) (fallback : Image) (st : store)
  (content : list Z) :
  n ≠ 0 →
  files st !! cache_path n = Some content →
  fetch_image_begin Image_open (Some n) fallback st
  = (Finished (Image_open content), st).
Proof.
  intros Hn Hfile. unfold fetch_image_begin.
  by rewrite (blank_nonzero n Hn), Hfile.
Qed.


Lemma fetch_image_resume_Ok (net : image_network) (dsk : disk) (n : Z)
  (fallback : Image) (st : store) :
  ∃ img, (fetch_image_resume Image_open net dsk n fallback st).1 = Ok img.
Proof.
  unfold fetch_image_resume.
  destruct (net (image_url n)) as [response|?]; [|by eexists].
  destruct (image_status response =? 200); [|by eexists].
  destruct (image_read response) as [image_data|?]; [|by eexists].
  destruct (dsk (cache_path n) image_data) as [|[partial|]];
    [|by eexists..].
  destruct (Image_open image_data); by eexists.
Qed.

(** X14: [fetch_image] raises in one case only: the cache holds a file
    for the identifier and [Image.open] raises on it. Then nothing is
    requested and nothing is written. On a cache miss, whatever the
    network and the disk do, an image is returned. *)
Theorem fetch_image_raises_only_on_bad_cache (net : image_network)
  (dsk : disk) (card_id : option Z) (fallback : Image) (st st' : store)
  (e : exn) :
  fetch_image Image_open net dsk card_id fallback st = (Raise e, st') →
  ∃ n content,
    card_id = Some n ∧
    files st !! cache_path n = Some content ∧
    Image_open content = Raise e ∧
    st' = st.
Proof.
  unfold fetch_image, fetch_image_begin. intros Hf.
  destruct (blank card_id); [done|].
  destruct card_id as [n|]; [|done].
  destruct (files st !! cache_path n) as [content|] eqn:Hfile.
  - injection Hf as Hopen <-. by exists n, content.
  - destruct (fetch_image_resume_Ok net dsk n fallback
                (Store (files st) (downloads st ++ [image_url n])))
      as [img Himg].
    rewrite Hf in Himg. discriminate Himg.
Qed.

(** X15: a fetch never removes a file and never touches the file of
    another identifier, whatever runs in between its two parts: the part
    up to the request changes no file, and the part from the response on,
    on whatever store it then finds, leaves every path other than the
    cache path of its own identifier as it was and every file that
    existed in existence. *)
Theorem fetch_image_touches_own_file_only :
  (∀ (card_id : option Z) (fallback : Image) (st : store),
     files (fetch_image_begin Image_open card_id fallback st).2 = files st) ∧
  (∀ (net : image_network) (dsk : disk) (n : Z) (fallback : Image)
     (st : store) (path : string),
     let st' := (fetch_image_resume Image_open net dsk n fallback st).2 in
     (path ≠ cache_path n → files st' !! path = files st !! path) ∧
     (is_Some (files st !! path) → is_Some (files st' !! path))).
Proof.
  split.
  - intros card_id fallback st. unfold fetch_image_begin.
    destruct (blank card_id); [done|].
    destruct card_id as [n|]; [|done].
    by destruct (files st !! cache_path n).
  - intros net dsk n fallback st path. cbn zeta.
    unfold fetch_image_resume.
    destruct (net (image_url n)) as [response|?]; [|done].
    destruct (image_status response =? 200); [|done].
    destruct (image_read response) as [image_data|?]; [|done].
    assert (Hins : ∀ data : list Z,
      (path ≠ cache_path n →
       (<[cache_path n := data]> (files st)) !! path = files st !! path) ∧
      (is_Some (files st !! path) →
       is_Some ((<[cache_path n := data]> (files st)) !! path))).
    { intros data. split.
      - intros Hne. by rewrite lookup_insert_ne.
      - intros Hsome. destruct (decide (cache_path n = path)) as [<-|Hne].
        + by rewrite lookup_insert_eq.
        + by rewrite lookup_insert_ne. }
    destruct (dsk (cache_path n) image_data) as [|[partial|]];
      [|by apply Hins|done].
    destruct (Image_open image_data); by apply Hins.
Qed.

(** X16: when the part of a fetch from the response on gets status 200,
    bytes that [Image.open] takes, and a write that succeeds, it returns
    the image and the cache file of the identifier holds these bytes,
    whatever it held before; and a fetch of the identifier that starts
    while the file holds these bytes returns the same image at once,
    without a request, whatever the fallback. *)
Theorem fetch_image_then_cached (net : image_network) (dsk : disk) (n : Z)
  (fallback : Image) (st : store) (image_data : list Z) (img : Image) :
  n ≠ 0 →
  net (image_url n) = Ok (ImageResponse 200 (Ok image_data)) →
  dsk (cache_path n) image_data = Written →
  Image_open image_data = Ok img →
  ∃ st',
    fetch_image_resume Image_open net dsk n fallback st = (Ok img, st') ∧
    files st' = <[cache_path n := image_data]> (files st) ∧
    downloads st' = downloads st ∧
    ∀ (later : store) (net' : image_network) (dsk' : disk) (fallback' : Image),
      files later !! cache_path n = Some image_data →
      fetch_image_begin Image_open (Some n) fallback' later
      = (Finished (Ok img), later) ∧
      fetch_image Image_open net' dsk' (Some n) fallback' later
      = (Ok img, later).
Proof.
  intros Hn Hnet Hdisk Hopen. unfold fetch_image_resume.
  rewrite Hnet. cbn [image_status image_read Z.eqb Pos.eqb].
  rewrite Hdisk, Hopen. eexists. split; [done|]. split; [done|].
  split; [done|].
  intros later net' dsk' fallback' Hfile.
  pose proof (fetch_image_begin_hit n fallback' later image_data Hn Hfile)
    as Hbegin.
  rewrite Hopen in Hbegin. split; [done|].
  unfold fetch_image. by rewrite Hbegin.
Qed.

(** X17: a download that is not an image spoils the cache: when the part
    of a fetch from the response on gets status 200, bytes on which
    [Image.open] raises, and a write that succeeds, it returns the
    fallback, but the cache file of the identifier holds these bytes; and
    a fetch of the identifier that starts while the file holds them
    raises that exception, without a request. *)
Theorem fetch_image_bad_download (net : image_network) (dsk : disk) (n : Z)
  (fallback : Image) (st : store) (image_data : list Z) (e : exn) :
  n ≠ 0 →
  net (image_url n) = Ok (ImageResponse 200 (Ok image_data)) →
  dsk (cache_path n) image_data = Written →
  Image_open image_data = Raise e →
  ∃ st',
    fetch_image_resume Image_open net dsk n fallback st = (Ok fallback, st') ∧
    files st' = <[cache_path n := image_data]> (files st) ∧
    ∀ (later : store) (net' : image_network) (dsk' : disk) (fallback' : Image),
      files later !! cache_path n = Some image_data →
      fetch_image Image_open net' dsk' (Some n) fallback' later
      = (Raise e, later).
Proof.
  intros Hn Hnet Hdisk Hopen. unfold fetch_image_resume.
  rewrite Hnet. cbn [image_status image_read Z.eqb Pos.eqb].
  rewrite Hdisk, Hopen. eexists. split; [done|]. split; [done|].
  intros later net' dsk' fallback' Hfile.
  unfold fetch_image.
  rewrite (fetch_image_begin_hit n fallback' later image_data Hn Hfile).
  by rewrite Hopen.
Qed.


End fetch_image_properties.

Lemma fetch_image_raises_only_on_bad_cache_witness :
  ∃ n content,
    Some 1101 = Some n ∧
    files spoiled_store !! cache_path n = Some content ∧
    sample_open content = Raise (ValueError "cannot identify image file") ∧
    spoiled_store = spoiled_store.
Proof.
  apply (fetch_image_raises_only_on_bad_cache sample_open
           (serving [137; 80]) writable (Some 1101) []
           spoiled_store spoiled_store).
  vm_compute. reflexivity.
Defined.

Lemma fetch_image_touches_own_file_only_witness :
  files (fetch_image_resume sample_open (serving [137; 80]) writable
           211011 [] spoiled_store).2 !! cache_path 1101
  = files spoiled_store !! cache_path 1101.
Proof.
  apply (proj2 (fetch_image_touches_own_file_only sample_open)
           (serving [137; 80]) writable 211011 [] spoiled_store
           (cache_path 1101)).
  vm_compute. discriminate.
Defined.

Lemma fetch_image_then_cached_witness :
  ∃ st',
    fetch_image_resume sample_open (serving [137; 80]) writable 1101 []
      spoiled_store
    = (Ok [137; 80], st') ∧
    files st' = <[cache_path 1101 := [137; 80]]> (files spoiled_store) ∧
    downloads st' = downloads spoiled_store ∧
    ∀ (later : store) (net' : image_network) (dsk' : disk)
      (fallback' : list Z),
      files later !! cache_path 1101 = Some [137; 80] →
      fetch_image_begin sample_open (Some 1101) fallback' later
      = (Finished (Ok [137; 80]), later) ∧
      fetch_image sample_open net' dsk' (Some 1101) fallback' later
      = (Ok [137; 80], later).
Proof.
  apply (fetch_image_then_cached sample_open (serving [137; 80]) writable
           1101 [] spoiled_store [137; 80] [137; 80]);
    [lia | reflexivity | reflexivity | reflexivity].
Defined.

Lemma fetch_image_bad_download_witness :
  ∃ st',
    fetch_image_resume sample_open (serving [60; 33]) writable 1101 []
      empty_store
    = (Ok [], st') ∧
    files st' = <[cache_path 1101 := [60; 33]]> (files empty_store) ∧
    ∀ (later : store) (net' : image_network) (dsk' : disk)
      (fallback' : list Z),
      files later !! cache_path 1101 = Some [60; 33] →
      fetch_image sample_open net' dsk' (Some 1101) fallback' later
      = (Raise (ValueError "cannot identify image file"), later).
Proof.
  apply (fetch_image_bad_download sample_open (serving [60; 33]) writable
           1101 [] empty_store [60; 33]);
    [lia | reflexivity | reflexivity | reflexivity].
Defined.


(** A write that fails: the fallback is returned and nothing is cached;
    two fetches of one identifier that both start before either writes
    both request it, and the second write replaces the first file. *)
Example fetch_image_unwritable :
  fetch_image sample_open (serving [137; 80]) read_only (Some 1101) []
    empty_store
  = (Ok [], Store ∅ [image_url 1101]).
Proof. vm_compute. reflexivity. Qed.

Example fetch_image_interleaved :
  let '(_, st1) := fetch_image_begin sample_open (Some 1101) [] empty_store in
  let '(_, st2) := fetch_image_begin sample_open (Some 1101) [] st1 in
  let '(_, st3) :=
    fetch_image_resume sample_open (serving [137; 80]) writable 1101 [] st2 in
  let '(_, st4) :=
    fetch_image_resume sample_open (serving [137; 81]) writable 1101 [] st3 in
  downloads st4 = [image_url 1101; image_url 1101] ∧
  files st3 !! cache_path 1101 = Some [137; 80] ∧
  files st4 !! cache_path 1101 = Some [137; 81].
Proof. vm_compute. repeat split; reflexivity. Qed.

(** * Properties of the layout *)

(** X19: no two of the 33 tiles overlap, whatever the width of the
    canvas. *)
Theorem tiles_disjoint (canvas_width i j : Z) :
  0 ≤ i → i < j → j < 33 →
  disjoint_rects (tile canvas_width i) (tile canvas_width j).
Proof.
  intros Hi Hij Hj. unfold disjoint_rects, tile, large_tile, small_tile.
  unfold W_LARGE, H_LARGE, W_SMALL, H_SMALL, PADDING.
  destruct (Z.ltb_spec i 3), (Z.ltb_spec j 3); cbn [rect_x rect_y rect_w rect_h].
  - left. lia.
  - right. right. left. lia_mod.
  - lia.
  - assert (Hcases : (i - 3) / 6 < (j - 3) / 6
                     ∨ ((i - 3) / 6 = (j - 3) / 6
                        ∧ (i - 3) `mod` 6 < (j - 3) `mod` 6)) by lia_mod.
    destruct Hcases as [Hrow|[Hrow Hcol]].
    + right. right. left. lia.
    + left. lia.
Qed.

Lemma tiles_disjoint_witness :
  disjoint_rects (tile 1000 8) (tile 1000 9).
Proof. apply (tiles_disjoint 1000 8 9); lia. Defined.

(** X20: on a canvas at least 614 pixels wide every tile lies between the
    left and right edges, between the rows 160 and 1256, and each row is
    centred: the margins left and right of the three large tiles, and of
    six small ones, differ by at most one pixel. *)
Theorem tiles_inside (canvas_width i : Z) :
  614 ≤ canvas_width →
  0 ≤ i < 33 →
  let t := tile canvas_width i in
  0 ≤ rect_x t ∧ rect_x t + rect_w t ≤ canvas_width ∧
  160 ≤ rect_y t ∧ rect_y t + rect_h t ≤ 1256 ∧
  (let left := rect_x (tile canvas_width 0) in
   let right := canvas_width
                - (rect_x (tile canvas_width 2) + rect_w (tile canvas_width 2)) in
   0 ≤ right - left ≤ 1) ∧
  (let left := rect_x (tile canvas_width 3) in
   let right := canvas_width
                - (rect_x (tile canvas_width 8) + rect_w (tile canvas_width 8)) in
   0 ≤ right - left ≤ 1).
Proof.
  intros Hw Hi. cbn zeta. unfold tile.
  change (0 <? 3) with true. change (2 <? 3) with true.
  change (3 <? 3) with false. change (8 <? 3) with false.
  unfold large_tile, small_tile, W_LARGE, H_LARGE, W_SMALL, H_SMALL, PADDING.
  cbn [rect_x rect_y rect_w rect_h].
  change ((3 - 3) `mod` 6) with 0. change ((8 - 3) `mod` 6) with 5.
  destruct (Z.ltb_spec i 3); cbn [rect_x rect_y rect_w rect_h]; lia_mod.
Qed.

Lemma tiles_inside_witness :
  let t := tile 1000 32 in
  0 ≤ rect_x t ∧ rect_x t + rect_w t ≤ 1000 ∧
  160 ≤ rect_y t ∧ rect_y t + rect_h t ≤ 1256 ∧
  (let left := rect_x (tile 1000 0) in
   let right := 1000 - (rect_x (tile 1000 2) + rect_w (tile 1000 2)) in
   0 ≤ right - left ≤ 1) ∧
  (let left := rect_x (tile 1000 3) in
   let right := 1000 - (rect_x (tile 1000 8) + rect_w (tile 1000 8)) in
   0 ≤ right - left ≤ 1).
Proof. apply (tiles_inside 1000 32); lia. Defined.

(** * Stray characters in a token *)

Lemma a2b_scan_skips (l : list ascii) (quad_pos leftchar pads : Z)
  (bin_data : list Z) :
  a2b_scan l quad_pos leftchar pads bin_data
  = a2b_scan (List.filter scanned l) quad_pos leftchar pads bin_data.
Proof.
  revert quad_pos leftchar pads bin_data.
  induction l as [|c l IH]; intros quad_pos leftchar pads bin_data; [done|].
  cbn [List.filter]. unfold scanned at 1.
  destruct (Ascii.eqb c BASE64_PAD) eqn:Hpad.
  - cbn [orb a2b_scan]. rewrite Hpad.
    destruct (_ && _); [done|]. apply IH.
  - destruct (64 <=? table_a2b_base64 c) eqn:Htab; cbn [orb negb].
    + cbn [a2b_scan]. rewrite Hpad. cbn zeta. rewrite Htab. apply IH.
    + cbn [a2b_scan]. rewrite Hpad. cbn zeta. rewrite Htab.
      repeat case_match; apply IH.
Qed.

Lemma scanned_translate_char (c : ascii) :
  Ascii.eqb c "=" = false →
  scanned (translate_char c) = in_alphabet c.
Proof.
  destruct c as [[] [] [] [] [] [] [] []]; vm_compute; intros H;
    first [discriminate H | reflexivity].
Qed.

Lemma is_ascii_translate_char (c : ascii) :
  is_ascii c = true → is_ascii (translate_char c) = true.
Proof.
  destruct c as [[] [] [] [] [] [] [] []]; vm_compute; intros H;
    first [discriminate H | reflexivity].
Qed.

Lemma filter_scanned_translated (l : list ascii) :
  forallb (fun c => negb (Ascii.eqb c "=")) l = true →
  List.filter scanned (map translate_char l)
  = map translate_char (List.filter in_alphabet l).
Proof.
  induction l as [|c l IH]; [done|]. cbn [forallb map List.filter].
  intros Hl. apply andb_true_iff in Hl as [Hc Hl].
  apply negb_true_iff in Hc. rewrite (scanned_translate_char c Hc), (IH Hl).
  by destruct (in_alphabet c).
Qed.

Lemma filter_scanned_pads (k : nat) :
  List.filter scanned (replicate k BASE64_PAD) = replicate k BASE64_PAD.
Proof. induction k as [|k IH]; [done|]. simpl. by rewrite IH. Qed.

(** What [a2b_base64] makes of a whole number of quads of data characters
    followed by any number of [=]. *)
Lemma a2b_base64_quads (data : list ascii) :
  Forall data_char data →
  (length data mod 4 = 0)%nat →
  ∃ raw, length raw = (3 * length data / 4)%nat ∧
         ∀ m, a2b_base64 (data ++ replicate m BASE64_PAD) = inr raw.
Proof.
  intros Hdata Hmod.
  destruct (a2b_scan_data_bytes _ 0 0 [] Hdata ltac:(lia) eq_refl)
    as (leftchar & bin_data & Hscan & Hlen).
  change (0 `mod` 4) with 0 in Hscan. rewrite Z.add_0_l in Hscan, Hlen.
  assert (Hq : Z.of_nat (length data) `mod` 4 = 0) by lia_mod.
  rewrite Hq in Hscan, Hlen. unfold emitted in Hlen. cbn in Hlen.
  exists bin_data. split; [lia_mod|].
  intros m. unfold a2b_base64. by rewrite Hscan, a2b_scan_pads_at_0.
Qed.

(** X21: in a token without [=] and without characters outside ASCII,
    the characters that are not of the Base64 alphabets (spaces, line
    breaks, punctuation) are ignored: when 68 characters of the alphabets
    remain, the token decodes to the share-IDs of these 68 characters. *)
Theorem stray_characters_ignored (s : string) :
  let l := list_ascii_of_string s in
  forallb is_ascii l = true →
  forallb (fun c => negb (Ascii.eqb c "=")) l = true →
  length (List.filter in_alphabet l) = 68%nat →
  ∃ ids,
    decode_share_ids s = Ok ids ∧
    decode_share_ids (string_of_list_ascii (List.filter in_alphabet l)) = Ok ids.
Proof.
  intros l Hascii Hpad H68.
  set (d := List.filter in_alphabet l) in *.
  assert (Hd : forallb in_alphabet d = true).
  { apply forallb_forall. intros c Hc. by apply filter_In in Hc as [_ Hc]. }
  destruct (a2b_base64_quads (map translate_char d)) as (raw & Hraw & Hdec).
  { by apply Forall_data_char_translated. }
  { by rewrite length_map, H68. }
  rewrite length_map, H68 in Hraw. change (3 * 68 / 4)%nat with 51%nat in Hraw.
  assert (Hs : b64decode (normalize s) = inr raw).
  { destruct (normalize_shape s) as (k & _ & _ & ->).
    unfold b64decode. cbn zeta.
    rewrite list_ascii_of_string_app, translate_replace, list_ascii_of_str_mul.
    fold l. change (replicate k "="%char) with (replicate k BASE64_PAD).
    assert (Hasc : forallb is_ascii
              (map translate_char l ++ replicate k BASE64_PAD) = true).
    { rewrite forallb_app. apply andb_true_iff. split.
      - clear -Hascii. induction l as [|c l IH]; [done|]. simpl in *.
        apply andb_true_iff in Hascii as [Hc Hl].
        by rewrite (is_ascii_translate_char c Hc), IH.
      - clear. induction k as [|k IH]; [done|]. simpl. by rewrite IH. }
    rewrite Hasc. rewrite <- (Hdec k). unfold a2b_base64.
    rewrite a2b_scan_skips, List.filter_app, filter_scanned_translated,
      filter_scanned_pads by done.
    done. }
  assert (Hs' : b64decode (normalize (string_of_list_ascii d)) = inr raw).
  { destruct (normalize_shape (string_of_list_ascii d)) as (k & _ & _ & ->).
    unfold b64decode. cbn zeta.
    rewrite list_ascii_of_string_app, translate_replace, list_ascii_of_str_mul,
      list_ascii_of_string_of_list_ascii.
    change (replicate k "="%char) with (replicate k BASE64_PAD).
    by rewrite forallb_is_ascii_normalized, Hdec. }
  destruct (decode_share_ids_51 s raw Hs Hraw) as (w & key & Hw & _ & ->).
  destruct (decode_share_ids_51 _ raw Hs' Hraw) as (w' & key' & Hw' & _ & ->).
  rewrite Hw in Hw'. apply app_inj_tail in Hw' as [<- <-].
  by eexists.
Qed.

Lemma stray_characters_ignored_witness :
  ∃ ids,
    decode_share_ids (str_mul "A" 34 +:+ " " +:+ str_mul "A" 34) = Ok ids ∧
    decode_share_ids
      (string_of_list_ascii
         (List.filter in_alphabet
            (list_ascii_of_string (str_mul "A" 34 +:+ " " +:+ str_mul "A" 34))))
    = Ok ids.
Proof.
  apply (stray_characters_ignored (str_mul "A" 34 +:+ " " +:+ str_mul "A" 34));
    reflexivity.
Defined.

(** * The token detection of [handle_base64_event] *)

Lemma try_counts_below (lo : nat) (rest : nat → option nat) (c : nat) :
  (c < lo)%nat → Re.try_counts lo rest c = None.
Proof.
  intros Hc. induction c as [|c IH]; cbn [Re.try_counts].
  - by destruct (Nat.leb_spec lo 0) as [Hle|_]; [lia|].
  - destruct (Nat.leb_spec lo (S c)) as [Hle|_]; [lia|]. apply IH. lia.
Qed.

Lemma try_counts_first (lo : nat) (rest : nat → option nat) (c n : nat) :
  (lo ≤ c)%nat → rest c = Some n → Re.try_counts lo rest c = Some (c + n)%nat.
Proof.
  intros Hc Hn. destruct c as [|c]; cbn [Re.try_counts].
  - destruct (Nat.leb_spec lo 0) as [_|Hlt]; [|lia]. by rewrite Hn.
  - destruct (Nat.leb_spec lo (S c)) as [_|Hlt]; [|lia]. by rewrite Hn.
Qed.

(** The pattern at the head of a text: as many alphabet characters as
    there are, up to 70, if they are 68 at least, then up to two [=]. *)
Lemma match_deck_code (s : list ascii) :
  let d := Nat.min 70 (Re.leading standard_char s) in
  let p := Nat.min 2 (Re.leading (fun c => Ascii.eqb c "=") (drop d s)) in
  Re.match_here deck_code_pattern s
  = if (68 <=? d)%nat then Some (d + p)%nat else None.
Proof.
  intros d p. unfold deck_code_pattern. cbn [Re.match_here Re.lo Re.hi Re.cls].
  fold d. destruct (Nat.leb_spec 68 d) as [Hd|Hd].
  - rewrite (try_counts_first 68 _ d p Hd); [done|].
    fold p. rewrite (try_counts_first 0 _ p 0); [|lia|done].
    by rewrite Nat.add_0_r.
  - by apply try_counts_below.
Qed.

Lemma search_inv (pattern : list Re.item) (l group : list ascii) :
  Re.search pattern l = Some group →
  ∃ pre s n,
    l = pre ++ s ∧ Re.match_here pattern s = Some n ∧ group = take n s.
Proof.
  induction l as [|c l IH]; cbn [Re.search].
  - destruct (Re.match_here pattern []) as [n|] eqn:Hm; [|done].
    intros [= <-]. by exists [], [], n.
  - destruct (Re.match_here pattern (c :: l)) as [n|] eqn:Hm.
    + intros [= <-]. by exists [], (c :: l), n.
    + intros Hs. destruct (IH Hs) as (pre & s & n & -> & Hn & ->).
      by exists (c :: pre), s, n.
Qed.

Lemma leading_le_length (f : ascii → bool) (s : list ascii) :
  (Re.leading f s ≤ length s)%nat.
Proof.
  induction s as [|c s IH]; [done|]. simpl. destruct (f c); lia.
Qed.

Lemma take_leading (f : ascii → bool) (s : list ascii) (k : nat) :
  (k ≤ Re.leading f s)%nat →
  forallb f (take k s) = true ∧ length (take k s) = k.
Proof.
  revert k. induction s as [|c s IH]; intros k Hk.
  - simpl in Hk. by replace k with 0%nat by lia.
  - destruct k as [|k]; [done|]. simpl in Hk |- *.
    destruct (f c); [|lia].
    destruct (IH k ltac:(lia)) as [-> ->]. done.
Qed.

Lemma leading_all (f : ascii → bool) (s : list ascii) :
  Re.leading f s = length s → forallb f s = true.
Proof.
  induction s as [|c s IH]; [done|]. simpl.
  pose proof (leading_le_length f s). destruct (f c); [|lia].
  intros Hl. apply IH. lia.
Qed.

Lemma take_pads (s : list ascii) (k : nat) :
  (k ≤ Re.leading (fun c => Ascii.eqb c "=") s)%nat →
  take k s = replicate k "="%char.
Proof.
  revert k. induction s as [|c s IH]; intros k Hk.
  - simpl in Hk. by replace k with 0%nat by lia.
  - destruct k as [|k]; [done|]. simpl in Hk |- *.
    destruct (Ascii.eqb_spec c "=") as [->|_]; [|lia].
    by rewrite IH by lia.
Qed.

Lemma string_of_list_ascii_app (l1 l2 : list ascii) :
  string_of_list_ascii (l1 ++ l2)
  = string_of_list_ascii l1 +:+ string_of_list_ascii l2.
Proof.
  induction l1 as [|c l1 IH]; [done|].
  change (String c (string_of_list_ascii (l1 ++ l2))
          = String c (string_of_list_ascii l1 +:+ string_of_list_ascii l2)).
  by rewrite IH.
Qed.

Lemma string_of_pads (k : nat) :
  string_of_list_ascii (replicate k "="%char) = str_mul "=" k.
Proof. induction k as [|k IH]; [done|]. simpl. by rewrite IH. Qed.

Lemma standard_char_no_space (c : ascii) :
  standard_char c = true → is_space c = false.
Proof.
  destruct c as [[] [] [] [] [] [] [] []]; vm_compute; intros H;
    first [discriminate H | reflexivity].
Qed.

Lemma standard_char_in_alphabet (c : ascii) :
  standard_char c = true → in_alphabet c = true.
Proof. unfold in_alphabet, standard_char. by intros ->. Qed.

(** The group matched, taken apart. *)
Lemma detect_code_inv (txt code : string) :
  detect_code txt = Some code →
  ∃ (pre post data : list ascii) (m : nat),
    list_ascii_of_string txt = pre ++ data ++ replicate m "="%char ++ post ∧
    code = string_of_list_ascii data +:+ str_mul "=" m ∧
    forallb standard_char data = true ∧
    (68 ≤ length data ≤ 70)%nat ∧ (m ≤ 2)%nat.
Proof.
  unfold detect_code.
  destruct (Re.search _ _) as [group|] eqn:Hsearch; [|done].
  intros [= <-].
  destruct (search_inv _ _ _ Hsearch) as (pre & s & n & Htxt & Hmatch & ->).
  rewrite match_deck_code in Hmatch. cbn zeta in Hmatch.
  set (d := Nat.min 70 (Re.leading standard_char s)) in *.
  set (p := Nat.min 2 (Re.leading (fun c => Ascii.eqb c "=") (drop d s))) in *.
  destruct (Nat.leb_spec 68 d) as [Hd|Hd]; [|done].
  injection Hmatch as <-.
  destruct (take_leading standard_char s d ltac:(lia)) as [Hdata Hlen].
  assert (Hpads : take p (drop d s) = replicate p "="%char)
    by (apply take_pads; lia).
  assert (Hgroup : take (d + p) s = take d s ++ replicate p "="%char).
  { by rewrite <- Hpads, take_take_drop. }
  exists pre, (drop p (drop d s)), (take d s), p.
  split; [|split; [|split; [|split]]].
  - rewrite Htxt. f_equal. rewrite <- Hpads.
    by rewrite (take_drop p (drop d s)), take_drop.
  - rewrite Hgroup, string_of_list_ascii_app, string_of_pads.
    apply strip_no_space. unfold no_space.
    rewrite list_ascii_of_string_app, list_ascii_of_string_of_list_ascii,
      list_ascii_of_str_mul.
    apply Forall_app_2.
    + apply Forall_forall. intros c Hc. apply standard_char_no_space.
      rewrite forallb_forall in Hdata. by apply Hdata, list_elem_of_In.
    + apply Forall_forall. by intros c [-> _]%elem_of_replicate.
  - done.
  - lia.
  - lia.
Qed.

(** X22: the code [handle_base64_event] takes out of a message is a piece
    of its text made of 68 to 70 characters of the standard alphabet
    followed by at most two [=]; stripping changes nothing. *)
Theorem detect_code_shape (txt code : string) :
  detect_code txt = Some code →
  ∃ (pre post data : list ascii) (m : nat),
    list_ascii_of_string txt = pre ++ list_ascii_of_string code ++ post ∧
    list_ascii_of_string code = data ++ replicate m "="%char ∧
    forallb standard_char data = true ∧
    (68 ≤ length data ≤ 70)%nat ∧ (m ≤ 2)%nat.
Proof.
  intros Hdet.
  destruct (detect_code_inv txt code Hdet)
    as (pre & post & data & m & Htxt & -> & Hdata & Hlen & Hm).
  exists pre, post, data, m.
  rewrite list_ascii_of_string_app, list_ascii_of_string_of_list_ascii,
    list_ascii_of_str_mul.
  split; [by rewrite <- app_assoc|]. done.
Qed.

Lemma detect_code_shape_witness :
  ∃ (pre post data : list ascii) (m : nat),
    list_ascii_of_string ("deck " +:+ golden_token +:+ "== !")
    = pre ++ list_ascii_of_string (golden_token +:+ "==") ++ post ∧
    list_ascii_of_string (golden_token +:+ "==")
    = data ++ replicate m "="%char ∧
    forallb standard_char data = true ∧
    (68 ≤ length data ≤ 70)%nat ∧ (m ≤ 2)%nat.
Proof.
  apply (detect_code_shape ("deck " +:+ golden_token +:+ "== !")).
  vm_compute. reflexivity.
Defined.

Lemma b64decode_normalize_padded (s : string) (j : nat) :
  forallb in_alphabet (list_ascii_of_string s) = true →
  b64decode (normalize (s +:+ str_mul "=" j)) = b64decode (normalize s).
Proof.
  intros Halpha.
  destruct (b64decode_alphabet s Halpha) as (res & Hres & _).
  destruct (normalize_shape s) as (k & _ & Hk & ->).
  destruct (normalize_shape (s +:+ str_mul "=" j)) as (k' & _ & Hk' & ->).
  rewrite length_append, length_str_mul in Hk'.
  rewrite !replace_append, !replace_str_mul_other by done.
  rewrite append_assoc, str_mul_add.
  rewrite (Hres k Hk), (Hres (j + k')%nat); [done|].
  by rewrite Nat.add_assoc.
Qed.

Lemma decode_padded_iff (s : string) (j : nat) :
  forallb in_alphabet (list_ascii_of_string s) = true →
  (∃ ids, decode_share_ids (s +:+ str_mul "=" j) = Ok ids)
  ↔ String.length s = 68%nat.
Proof.
  intros Halpha.
  pose proof (b64decode_normalize_padded s j Halpha) as Hpad.
  destruct (b64decode_normalize_alphabet s Halpha) as [Hok Hbad].
  destruct (decide ((String.length s mod 4)%nat = 1%nat)) as [H1|H1].
  - destruct (Hbad H1) as [n Hn]. rewrite Hn in Hpad. split.
    + intros [ids Hids]. unfold decode_share_ids in Hids.
      rewrite Hpad in Hids. discriminate Hids.
    + intros H68. rewrite H68 in H1. discriminate H1.
  - destruct (Hok H1) as (raw & Hraw & Hlen). rewrite Hraw in Hpad. split.
    + intros [ids Hids]. rewrite (decode_share_ids_decoded _ _ Hpad) in Hids.
      destruct (decide (length raw = 51%nat)) as [H51|H51].
      * lia_mod.
      * rewrite bool_decide_true in Hids by done. discriminate Hids.
    + intros H68.
      assert (H51 : length raw = 51%nat) by (rewrite Hlen, H68; reflexivity).
      destruct (decode_share_ids_51 _ raw Hpad H51) as (w & k & _ & _ & ->).
      by eexists.
Qed.

Lemma filter_standard_data (data : list ascii) (m : nat) :
  forallb standard_char data = true →
  List.filter standard_char (data ++ replicate m "="%char) = data.
Proof.
  intros Hdata. rewrite List.filter_app.
  assert (Hpads : List.filter standard_char (replicate m "="%char) = []).
  { induction m as [|m IH]; [done|]. simpl. apply IH. }
  rewrite Hpads, app_nil_r. clear Hpads.
  induction data as [|c data IH]; [done|]. simpl in Hdata |- *.
  apply andb_true_iff in Hdata as [-> Hdata]. by rewrite IH.
Qed.

(** X23: the code that [handle_base64_event] takes out of a message is
    decoded to share-IDs exactly when it holds 68 characters of the
    alphabet: a run of 69 characters or more is matched greedily and the
    code is then rejected. *)
Theorem detected_code_decodes_iff_68 (txt code : string) :
  detect_code txt = Some code →
  (∃ ids, decode_share_ids code = Ok ids)
  ↔ length (List.filter standard_char (list_ascii_of_string code)) = 68%nat.
Proof.
  intros Hdet.
  destruct (detect_code_inv txt code Hdet)
    as (pre & post & data & m & _ & -> & Hdata & _ & _).
  rewrite list_ascii_of_string_app, list_ascii_of_string_of_list_ascii,
    list_ascii_of_str_mul, filter_standard_data by done.
  rewrite decode_padded_iff.
  - by rewrite <- length_list_ascii_of_string, list_ascii_of_string_of_list_ascii.
  - rewrite list_ascii_of_string_of_list_ascii.
    apply forallb_forall. intros c Hc. apply standard_char_in_alphabet.
    rewrite forallb_forall in Hdata. by apply Hdata.
Qed.

Lemma detected_code_decodes_iff_68_witness :
  (∃ ids, decode_share_ids (golden_token +:+ "==") = Ok ids)
  ↔ length (List.filter standard_char
              (list_ascii_of_string (golden_token +:+ "=="))) = 68%nat.
Proof.
  apply (detected_code_decodes_iff_68 ("deck " +:+ golden_token +:+ "== !")).
  vm_compute. reflexivity.
Defined.

Lemma search_short (l : list ascii) :
  (length l < 68)%nat → Re.search deck_code_pattern l = None.
Proof.
  induction l as [|c l IH]; intros Hlen; cbn [Re.search];
    rewrite match_deck_code; cbn zeta.
  - reflexivity.
  - pose proof (leading_le_length standard_char (c :: l)) as Hle.
    destruct (Nat.leb_spec 68 (Nat.min 70 (Re.leading standard_char (c :: l))))
      as [Hd|_]; [lia|].
    apply IH. simpl in Hlen. lia.
Qed.

(** X24: a message of at most 68 characters that holds a character
    outside the standard alphabet gives [handle_base64_event] nothing to
    decode; so a URL-safe token that has a [-] or a [_] is not detected
    when sent alone. *)
Theorem short_text_not_detected (txt : string) :
  (String.length txt ≤ 68)%nat →
  forallb standard_char (list_ascii_of_string txt) = false →
  detect_code txt = None.
Proof.
  intros Hlen Hstd. unfold detect_code.
  rewrite <- length_list_ascii_of_string in Hlen.
  set (l := list_ascii_of_string txt) in *.
  assert (Hsearch : Re.search deck_code_pattern l = None); [|by rewrite Hsearch].
  destruct l as [|c l]; [done|]. cbn [Re.search].
  rewrite match_deck_code. cbn zeta.
  pose proof (leading_le_length standard_char (c :: l)) as Hle.
  destruct (Nat.leb_spec 68 (Nat.min 70 (Re.leading standard_char (c :: l))))
    as [Hd|_].
  - assert (Hall : Re.leading standard_char (c :: l) = length (c :: l)) by lia.
    apply leading_all in Hall. congruence.
  - apply search_short. simpl in Hlen. lia.
Qed.

Lemma short_text_not_detected_witness :
  detect_code
    "-wv7C_sL-wv7C_sL-wv7C_sL-wv7C_sL-wv7C_sL-wv7C_sL-wv7C_sL-wv7C_sL-wvr"
  = None.
Proof.
  apply short_text_not_detected; [vm_compute; lia | reflexivity].
Defined.

Lemma leading_data_then (f : ascii → bool) (data rest : list ascii) :
  forallb f data = true →
  Re.leading f (data ++ rest) = (length data + Re.leading f rest)%nat.
Proof.
  induction data as [|c data IH]; [done|]. simpl. intros Hdata.
  apply andb_true_iff in Hdata as [-> Hdata]. by rewrite IH.
Qed.

Lemma leading_pads_standard (m : nat) :
  Re.leading standard_char (replicate m "="%char) = 0%nat.
Proof. by destruct m. Qed.

Lemma leading_pads (m : nat) :
  Re.leading (fun c => Ascii.eqb c "=") (replicate m "="%char) = m.
Proof. induction m as [|m IH]; [done|]. simpl. by rewrite IH. Qed.

(** X25: a message that is just 68 to 70 characters of the standard
    alphabet followed by at most two [=] is detected whole; with the
    theorem before, it is then decoded exactly when the characters are
    68. *)
Theorem lone_token_detected (token : string) (m : nat) :
  forallb standard_char (list_ascii_of_string token) = true →
  (68 ≤ String.length token ≤ 70)%nat →
  (m ≤ 2)%nat →
  detect_code (token +:+ str_mul "=" m) = Some (token +:+ str_mul "=" m).
Proof.
  intros Hstd Hlen Hm. unfold detect_code.
  rewrite list_ascii_of_string_app, list_ascii_of_str_mul.
  set (data := list_ascii_of_string token) in *.
  assert (Hdata : length data = String.length token)
    by apply length_list_ascii_of_string.
  assert (Hmatch : Re.match_here deck_code_pattern (data ++ replicate m "="%char)
                   = Some (length data + m)%nat).
  { rewrite match_deck_code. cbn zeta.
    rewrite leading_data_then, leading_pads_standard, Nat.add_0_r by done.
    replace (Nat.min 70 (length data)) with (length data) by lia.
    rewrite drop_app_length, leading_pads.
    destruct (Nat.leb_spec 68 (length data)) as [_|Hlt]; [|lia].
    by replace (Nat.min 2 m) with m by lia. }
  assert (Hsearch : Re.search deck_code_pattern (data ++ replicate m "="%char)
                    = Some (data ++ replicate m "="%char)).
  { destruct (data ++ replicate m "="%char) as [|c l] eqn:Heq.
    - destruct data; [simpl in Hdata; lia|done].
    - cbn [Re.search]. rewrite Hmatch. f_equal.
      rewrite <- Heq. apply take_ge. rewrite length_app, length_replicate. lia. }
  rewrite Hsearch. f_equal.
  rewrite string_of_list_ascii_app, string_of_pads.
  unfold data. rewrite string_of_list_ascii_of_string.
  apply strip_no_space. unfold no_space.
  rewrite list_ascii_of_string_app, list_ascii_of_str_mul.
  apply Forall_app_2.
  - apply Forall_forall. intros c Hc. apply standard_char_no_space.
    rewrite forallb_forall in Hstd. by apply Hstd, list_elem_of_In.
  - apply Forall_forall. by intros c [-> _]%elem_of_replicate.
Qed.

Lemma lone_token_detected_witness :
  detect_code (golden_token +:+ str_mul "=" 1)
  = Some (golden_token +:+ str_mul "=" 1).
Proof.
  apply (lone_token_detected golden_token 1);
    [reflexivity | vm_compute; lia | lia].
Defined.

(** * The frame of a six-digit identifier *)

Lemma pretty_six_digits (x : N) :
  (100000 ≤ x ≤ 999999)%N →
  pretty_N_go x ""
  = String (pretty_N_char ((x / 10 / 10 / 10 / 10 / 10) `mod` 10)%N)
      (String (pretty_N_char ((x / 10 / 10 / 10 / 10) `mod` 10)%N)
         (String (pretty_N_char ((x / 10 / 10 / 10) `mod` 10)%N)
            (String (pretty_N_char ((x / 10 / 10) `mod` 10)%N)
               (String (pretty_N_char ((x / 10) `mod` 10)%N)
                  (String (pretty_N_char (x `mod` 10)%N) ""))))).
Proof.
  intros Hx.
  rewrite (pretty_N_go_step x) by lia.
  rewrite (pretty_N_go_step (x / 10)%N) by lia_mod.
  rewrite (pretty_N_go_step (x / 10 / 10)%N) by lia_mod.
  rewrite (pretty_N_go_step (x / 10 / 10 / 10)%N) by lia_mod.
  rewrite (pretty_N_go_step (x / 10 / 10 / 10 / 10)%N) by lia_mod.
  rewrite (pretty_N_go_step (x / 10 / 10 / 10 / 10 / 10)%N) by lia_mod.
  assert (H0 : (x / 10 / 10 / 10 / 10 / 10 / 10 = 0)%N) by lia_mod.
  by rewrite H0, pretty_N_go_0.
Qed.

Lemma pretty_N_char_is (d e : N) :
  (d < 10)%N → (e < 10)%N →
  pretty_N_char d = pretty_N_char e ↔ d = e.
Proof.
  intros Hd He. split; [by apply pretty_N_char_inj|by intros ->].
Qed.

Lemma decide_pretty_N_char {A} (d e : N) (a b : A) :
  (d < 10)%N → (e < 10)%N →
  (if decide (pretty_N_char d = pretty_N_char e) then a else b)
  = if decide (d = e) then a else b.
Proof.
  intros Hd He. pose proof (pretty_N_char_is d e Hd He) as Hiff.
  destruct (decide (pretty_N_char d = pretty_N_char e)),
    (decide (d = e)); tauto.
Qed.

Lemma prefix_cons (a b : ascii) (s t : string) :
  String.prefix (String a s) (String b t)
  = if decide (a = b) then String.prefix s t else false.
Proof.
  cbn [String.prefix]. destruct (ascii_dec a b), (decide (a = b)); done.
Qed.

(** X26: for an identifier of six decimal digits, the esoteric frame is
    chosen exactly for the identifiers 330000 to 330099. *)
Theorem frame_of_six_digits (n : Z) :
  100000 ≤ n ≤ 999999 →
  frame_for (Some n)
  = Some (if bool_decide (330000 ≤ n ≤ 330099)
          then frame_esoteric else frame_normal).
Proof.
  intros Hn. destruct n as [|p|p]; [lia| |lia].
  unfold frame_for, startswith, str, pretty, pretty_Z, pretty, pretty_positive,
    pretty, pretty_N.
  rewrite decide_False by done.
  rewrite pretty_six_digits by lia.
  assert (Hxz : Z.of_N (N.pos p) = Z.pos p) by reflexivity.
  revert Hxz. generalize (N.pos p). intros x Hxz.
  change "3300"%string
    with (String (pretty_N_char 3) (String (pretty_N_char 3)
           (String (pretty_N_char 0) (String (pretty_N_char 0) "")))).
  rewrite !prefix_cons. cbn [String.prefix].
  f_equal.
  rewrite !decide_pretty_N_char by lia_mod.
  repeat case_decide;
    first [ rewrite bool_decide_true by lia_mod; reflexivity
          | rewrite bool_decide_false by lia_mod; reflexivity ].
Qed.

Lemma frame_of_six_digits_witness :
  frame_for (Some 330005) = Some frame_esoteric ∧
  frame_for (Some 211011) = Some frame_normal.
Proof.
  split.
  - apply (frame_of_six_digits 330005). lia.
  - apply (frame_of_six_digits 211011). lia.
Defined.
